(** * metalband/merge.py: last-cited-year enrichment

    A shallow embedding of [src/metalband/merge.py] and the properties of
    its citation-resolution core: title normalisation, the DBLP index,
    the OpenAlex query cache and the per-row resolver.

    Python values are modelled as follows.
    - [str] is a sequence of Unicode code points ([list N]).
    - [int] is [Z].
    - a [dict] is a [gmap]; [defaultdict(list)] is a [gmap] whose missing
      keys read as the empty list.
    - the interpreter's Unicode tables ([str.lower], [str.isspace], the
      regex class [\w]) and [int()] are not part of the repository; they
      are the fields of the class [PyText]. *)

From Stdlib Require Import ZArith List Lia String Ascii DecimalString.
From Stdlib Require DecimalPos DecimalZ.
From stdpp Require Import gmap list.

Local Open Scope Z_scope.

(** ** Python strings *)

Abbreviation char := N (only parsing).
Abbreviation str := (list N) (only parsing).

(** A literal of the source, as code points. *)
Definition lit (s : string) : str :=
  List.map N_of_ascii (list_ascii_of_string s).

(** Truthiness of a [str]: [if s:] holds for non-empty strings. *)
Definition truthy (s : str) : bool :=
  match s with [] => false | _ :: _ => true end.

Class PyText := {
  (** [str.isspace] on one code point; [str.strip] removes these. *)
  isspace : char -> bool;
  (** [Py_UNICODE_ISALNUM]; the regex class [\w] is this or ['_']. *)
  isalnum : char -> bool;
  (** What [str.lower] writes for the code point [c] standing between
      [before] and [after] (one code point may lower to several, and the
      capital sigma lowers by context). *)
  lower_at : str -> char -> str -> str;
  (** [int(text)]; [None] stands for [ValueError]. *)
  int_of_str : str -> option Z
}.

(** The one fact about [str.lower] that normalisation relies on: what
    lowering writes is left alone by lowering, wherever it stands. *)
Class PyTextLaws `{PyText} : Prop := {
  lower_stable : forall before c after c',
    In c' (lower_at before c after) ->
    forall b a, lower_at b c' a = [c']
}.

Section Text.
Context `{PyText}.

Fixpoint lower_from (before s : str) : str :=
  match s with
  | [] => []
  | c :: after => lower_at before c after ++ lower_from (before ++ [c]) after
  end.

(** [s.lower()] *)
Definition py_lower (s : str) : str := lower_from [] s.

Definition underscore : char := 95%N.

(** The regex class [\W]: not a word character. *)
Definition re_W (c : char) : bool := negb (isalnum c || N.eqb c underscore).

(** The regex class [[\W_]]. *)
Definition re_W_or_underscore (c : char) : bool :=
  re_W c || N.eqb c underscore.

(** [re.sub(r"[\W_]+", "", s)]: every maximal run of the class is replaced
    by the empty string, which leaves the code points outside the class. *)
Definition re_sub_nonword (s : str) : str :=
  List.filter (fun c => negb (re_W_or_underscore c)) s.

(** [normalize_title(title)]; [None] is Python's [None]. *)
Definition normalize_title (title : option str) : str :=
  match title with
  | None => []
  | Some t => if truthy t then re_sub_nonword (py_lower t) else []
  end.

(** [s.strip()] *)
Fixpoint lstrip (s : str) : str :=
  match s with
  | [] => []
  | c :: s' => if isspace c then lstrip s' else s
  end.

Definition rstrip (s : str) : str := rev (lstrip (rev s)).

Definition strip (s : str) : str := rstrip (lstrip s).

(** [sub in s] *)
Fixpoint is_prefix (p s : str) : bool :=
  match p, s with
  | [], _ => true
  | _ :: _, [] => false
  | a :: p', b :: s' => N.eqb a b && is_prefix p' s'
  end.

Fixpoint contains (sub s : str) : bool :=
  is_prefix sub s ||
  match s with
  | [] => false
  | _ :: s' => contains sub s'
  end.

(** [s.split(sep)] for a non-empty [sep]: occurrences are found from the
    left and do not overlap.  [skip] counts the code points of a matched
    separator still to be passed over; [cur] is the piece being read, in
    reverse. *)
Fixpoint split_go (sep : str) (skip : nat) (cur s : str) : list str :=
  match s with
  | [] => [rev cur]
  | c :: s' =>
      match skip with
      | S k => split_go sep k cur s'
      | O =>
          if is_prefix sep s
          then rev cur :: split_go sep (length sep - 1) [] s'
          else split_go sep 0 (c :: cur) s'
      end
  end.

Definition split (sep s : str) : list str := split_go sep 0 [] s.

(** [pieces[-1]] of a non-empty list of pieces. *)
Definition last_piece (pieces : list str) : str := List.last pieces [].

End Text.

(** ** An interpreter restricted to ASCII

    Code points below 128 behave as in CPython; the others are taken as
    caseless and neither alphanumeric nor white space.  It instantiates
    the examples. *)
Module Ascii7.

Definition between (lo hi c : N) : bool := (N.leb lo c && N.leb c hi)%bool.

Definition a_isspace (c : N) : bool :=
  (between 9 13 c || between 28 32 c)%bool.

Definition a_isalnum (c : N) : bool :=
  (between 48 57 c || between 65 90 c || between 97 122 c)%bool.

Definition a_lower (c : N) : N :=
  if between 65 90 c then (c + 32)%N else c.

Fixpoint digits (acc : Z) (s : str) : option Z :=
  match s with
  | [] => Some acc
  | c :: s' =>
      if between 48 57 c then digits (10 * acc + (Z.of_N c - 48)) s' else None
  end.

(** [int] on a plain run of decimal digits with an optional minus sign. *)
Definition a_int (s : str) : option Z :=
  match s with
  | [] => None
  | 45%N :: (_ :: _) as d => option_map Z.opp (digits 0 d)
  | _ => digits 0 s
  end.

#[export] Instance text : PyText := {|
  isspace := a_isspace;
  isalnum := a_isalnum;
  lower_at := fun _ c _ => [a_lower c];
  int_of_str := a_int
|}.

End Ascii7.

(** ** An interpreter with the tables of Latin-1

    The code points below 256 as CPython's Unicode database has them:
    white space, letters ([str.isalpha]), digits ([str.isdigit], with the
    superscripts), other numeric code points ([str.isnumeric]: the vulgar
    fractions) and the upper-case letters with their lower-case forms.
    The code points from 256 on are taken as caseless and neither
    alphanumeric nor white space. *)
Module Latin1.

Definition between := Ascii7.between.

Definition l_isspace (c : N) : bool :=
  (between 9 13 c || between 28 32 c || N.eqb c 133 || N.eqb c 160)%bool.

Definition l_isupper (c : N) : bool :=
  (between 65 90 c || between 192 214 c || between 216 222 c)%bool.

Definition l_isalpha (c : N) : bool :=
  (between 65 90 c || between 97 122 c
   || N.eqb c 170 || N.eqb c 181 || N.eqb c 186
   || between 192 214 c || between 216 246 c || between 248 255 c)%bool.

Definition l_isdigit (c : N) : bool :=
  (between 48 57 c || N.eqb c 178 || N.eqb c 179 || N.eqb c 185)%bool.

Definition l_isnumeric (c : N) : bool :=
  (l_isdigit c || between 188 190 c)%bool.

(** [Py_UNICODE_ISALNUM]: alphabetic, decimal, digit or numeric. *)
Definition l_isalnum (c : N) : bool := (l_isalpha c || l_isnumeric c)%bool.

Definition l_lower (c : N) : N := if l_isupper c then (c + 32)%N else c.

(** A lower-case letter or a digit. *)
Definition lower_letter_or_digit (c : N) : bool :=
  ((l_isalpha c && negb (l_isupper c)) || l_isdigit c)%bool.

#[export] Instance text : PyText := {|
  isspace := l_isspace;
  isalnum := l_isalnum;
  lower_at := fun _ c _ => [l_lower c];
  int_of_str := Ascii7.a_int
|}.

End Latin1.

(** [str(n)] for an [int]. *)
Definition str_of_int (n : Z) : str := lit (NilZero.string_of_int (Z.to_int n)).

(** [max(x :: xs)]: the first maximal item. *)
Definition py_max (x : Z) (xs : list Z) : Z :=
  fold_left (fun m y => if m <? y then y else m) xs x.

(** ** Exceptions, the world and the monad of the script *)

Inductive exn :=
| FileNotFoundError
| ValueError
| IndexError
| ApiError            (* what pyalex or its transport raises *)
| KeyboardInterrupt
| SystemExit (code : Z)
| XMLSyntaxError      (* lxml, on a document that does not parse *)
| JSONDecodeError     (* json.load; a [ValueError] *)
| UnicodeDecodeError  (* reading a file that is not UTF-8; a [ValueError] *)
| OSError             (* [IsADirectoryError], [PermissionError], ... *)
| CsvError.           (* [csv.Error] *)

(** [except Exception] catches everything but the two [BaseException]s. *)
Definition is_Exception (e : exn) : bool :=
  match e with
  | KeyboardInterrupt | SystemExit _ => false
  | _ => true
  end.

(** One DBLP element as [iterparse] hands it over.  [title] and [year] are
    the text of the first such child, [None] when the child or its text is
    missing; [ees] and [cites] are the texts of all such children. *)
Record record := {
  tag : str;
  key : option str;
  title : option str;
  ees : list (option str);
  year : option str;
  cites : list (option str)
}.

(** [args.dblp_xml]: a document that parses into elements, or one on
    which the parser raises [XMLSyntaxError] while it is read. *)
Inductive xml :=
| Malformed
| Doc (elems : list record).

(** What [api_cache.json] holds when it exists: a JSON document, or
    something [json.load] cannot parse. *)
Inductive json_file :=
| Garbled
| Json (doc : gmap str (list Z)).

(** What [args.input_tsv] is when it exists: something that [open] or
    [csv.reader] raises [e] on (a directory, a file without read
    permission, bytes that are not UTF-8, a malformed line), or the rows
    [csv.reader] reads. *)
Inductive tsv_file :=
| Unreadable (e : exn)
| Rows (rows : list (list str)).

(** What OpenAlex answers to the two requests of one lookup: the
    [publication_year] of every citing work ([None] when the field is
    missing), or an exception raised on the way. *)
Inductive reply :=
| Cites (years : list (option Z))
| Raises (e : exn).

(** What a run does to the outside, in order: a lookup sent to OpenAlex
    with what came back, a write of [api_cache.json], a write of the
    output table. *)
Inductive event :=
| Query (doi : str) (answer : reply)
| Flush
| WriteOutput.

Record world := {
  (** the dict bound to [api_cache], shared with the lookup function *)
  api_cache : gmap str (list Z);
  (** [api_cache.json]; [None] when absent *)
  cache_file : option json_file;
  (** [args.input_tsv]; [None] when absent *)
  input_file : option tsv_file;
  (** [args.dblp_xml]; [None] when absent *)
  dblp_file : option xml;
  (** whether [dblp.dtd] exists *)
  dtd_present : bool;
  (** [args.output_tsv] *)
  output_file : option (list (list str));
  trace : list event
}.

Definition set_api_cache (c : gmap str (list Z)) (w : world) : world :=
  {| api_cache := c; cache_file := cache_file w; input_file := input_file w;
     dblp_file := dblp_file w; dtd_present := dtd_present w;
     output_file := output_file w; trace := trace w |}.

Definition set_cache_file (c : gmap str (list Z)) (w : world) : world :=
  {| api_cache := api_cache w; cache_file := Some (Json c);
     input_file := input_file w;
     dblp_file := dblp_file w; dtd_present := dtd_present w;
     output_file := output_file w; trace := trace w |}.

Definition set_output_file (t : list (list str)) (w : world) : world :=
  {| api_cache := api_cache w; cache_file := cache_file w;
     input_file := input_file w; dblp_file := dblp_file w;
     dtd_present := dtd_present w; output_file := Some t; trace := trace w |}.

Definition log (e : event) (w : world) : world :=
  {| api_cache := api_cache w; cache_file := cache_file w;
     input_file := input_file w; dblp_file := dblp_file w;
     dtd_present := dtd_present w; output_file := output_file w;
     trace := trace w ++ [e] |}.

Inductive res (A : Type) :=
| Ret (a : A)
| Raise (e : exn).
Arguments Ret {A} a.
Arguments Raise {A} e.

(** A computation changes the world and returns or raises; what it did to
    the world before raising stays done. *)
Definition M (A : Type) : Type := world -> res A * world.

Definition ret {A} (a : A) : M A := fun w => (Ret a, w).

Definition raise {A} (e : exn) : M A := fun w => (Raise e, w).

Definition bind {A B} (m : M A) (k : A -> M B) : M B :=
  fun w =>
    match m w with
    | (Ret a, w') => k a w'
    | (Raise e, w') => (Raise e, w')
    end.

Declare Scope py_scope.
Delimit Scope py_scope with py.
Notation "x <- m ;; k" := (bind m (fun x => k))
  (at level 100, m at next level, right associativity) : py_scope.
Notation "m ;;; k" := (bind m (fun _ => k))
  (at level 100, right associativity) : py_scope.

(** [try: m / except <handled>: h] *)
Definition try_except {A} (m : M A) (handled : exn -> bool) (h : exn -> M A)
  : M A :=
  fun w =>
    match m w with
    | (Raise e, w') => if handled e then h e w' else (Raise e, w')
    | r => r
    end.

(** [try: m / finally: f] *)
Definition try_finally {A} (m : M A) (f : M unit) : M A :=
  fun w =>
    match m w with
    | (r, w') =>
        match f w' with
        | (Ret _, w'') => (r, w'')
        | (Raise e, w'') => (Raise e, w'')
        end
    end.

Definition modify (f : world -> world) : M unit := fun w => (Ret tt, f w).

Definition gets {A} (f : world -> A) : M A := fun w => (Ret (f w), w).

(** [l[i]] *)
Definition item {A} (l : list A) (i : nat) : M A :=
  match nth_error l i with
  | Some a => ret a
  | None => raise IndexError
  end.

(** [l.index(x)] *)
Fixpoint index_of (x : str) (l : list str) : option nat :=
  match l with
  | [] => None
  | y :: l' => if decide (y = x) then Some O else option_map S (index_of x l')
  end.

Definition py_index (l : list str) (x : str) : M nat :=
  match index_of x l with
  | Some i => ret i
  | None => raise ValueError
  end.

(** ** The script *)

Section Script.
Context `{PyText}.
(** The OpenAlex service: its answer to a lookup of [doi], given how many
    lookups the run has made before. *)
Variable remote : nat -> str -> reply.

Local Open Scope py_scope.

Definition PUBLICATION_TAGS : list str :=
  List.map lit ["article"; "inproceedings"; "proceedings"; "book";
                "incollection"; "phdthesis"; "mastersthesis"]%string.

(** The document of [api_cache.json], or the empty dict when the file does
    not exist. *)
Definition loaded (w : world) : gmap str (list Z) :=
  match cache_file w with
  | Some (Json c) => c
  | _ => ∅
  end.

(** [load_api_cache()]: [json.load] raises on a file that is not a JSON
    document. *)
Definition load_api_cache : M (gmap str (list Z)) :=
  f <- gets cache_file ;;
  match f with
  | Some Garbled => raise JSONDecodeError
  | _ => gets loaded
  end.

(** [save_api_cache(cache)]: the file is overwritten by the whole dict. *)
Definition save_api_cache (cache : gmap str (list Z)) : M unit :=
  modify (fun w => log Flush (set_cache_file cache w)).

(** [f"openalex_{doi}"] *)
Definition cache_key (doi : str) : str := lit "openalex_" ++ doi.

(** [if work.get("publication_year")]: present and not zero. *)
Definition publication_years (works : list (option Z)) : list Z :=
  omap (fun y => match y with
                 | Some n => if n =? 0 then None else Some n
                 | None => None
                 end) works.

Definition queries_made (w : world) : nat :=
  length (List.filter (fun e => match e with Query _ _ => true | _ => false end)
                      (trace w)).

(** The two pyalex requests of one lookup and the loop over their
    result. *)
Definition query_openalex (doi : str) : M (list Z) :=
  fun w =>
    let answer := remote (queries_made w) doi in
    match answer with
    | Cites works => (Ret (publication_years works), log (Query doi answer) w)
    | Raises e => (Raise e, log (Query doi answer) w)
    end.

(** [cache[k] = years] on the dict of the world. *)
Definition cache_put (k : str) (years : list Z) : M unit :=
  modify (fun w => set_api_cache (<[k := years]> (api_cache w)) w).

(** [get_openalex_citation_years(doi, cache)]; [cache] is the dict of the
    world. *)
Definition get_openalex_citation_years (doi : str) : M (list Z) :=
  if negb (truthy doi) then ret []
  else
    cache <- gets api_cache ;;
    match cache !! cache_key doi with
    | Some years => ret years
    | None =>
        r <- try_except (ys <- query_openalex doi ;; ret (Some ys))
                        is_Exception (fun _ => ret None) ;;
        match r with
        | None => ret []
        | Some citation_years =>
            cache_put (cache_key doi) citation_years ;;;
            ret citation_years
        end
    end.

(** *** The DBLP index *)

Record index := {
  doi_to_key_map : gmap str str;
  title_to_key_map : gmap str str;
  citations_map : gmap str (list Z)
}.

Definition empty_index : index :=
  {| doi_to_key_map := ∅; title_to_key_map := ∅; citations_map := ∅ |}.

Definition doi_marker : str := lit "doi.org/".

(** Lines 127-131: the title of the element. *)
Definition index_title (dblp_key : str) (elem : record)
    (title_to_key : gmap str str) : gmap str str :=
  match title elem with
  | Some text =>
      if truthy text then
        let normalized := normalize_title (Some text) in
        if truthy normalized then <[normalized := dblp_key]> title_to_key
        else title_to_key
      else title_to_key
  | None => title_to_key
  end.

(** Lines 133-137: the loop over the [ee] children, up to its [break]. *)
Fixpoint first_doi (ee : list (option str)) : option str :=
  match ee with
  | [] => None
  | Some text :: rest =>
      if truthy text && contains doi_marker text
      then Some (last_piece (split doi_marker text))
      else first_doi rest
  | None :: rest => first_doi rest
  end.

Definition index_ee (dblp_key : str) (elem : record)
    (doi_to_key : gmap str str) : gmap str str :=
  match first_doi (ees elem) with
  | Some doi => <[doi := dblp_key]> doi_to_key
  | None => doi_to_key
  end.

(** [citations_map[cited].append(citing_year)] on a [defaultdict(list)]. *)
Definition append_year (cited : str) (citing_year : Z)
    (citations : gmap str (list Z)) : gmap str (list Z) :=
  <[cited := default [] (citations !! cited) ++ [citing_year]]> citations.

(** Lines 139-147: the year and the [cite] children. *)
Definition index_cites (elem : record) (citations : gmap str (list Z))
  : gmap str (list Z) :=
  match year elem with
  | Some text =>
      if truthy text then
        match int_of_str text with
        | Some citing_year =>
            fold_left
              (fun acc citation =>
                 match citation with
                 | Some cited =>
                     if truthy cited && negb (bool_decide (cited = lit "..."))
                     then append_year cited citing_year acc
                     else acc
                 | None => acc
                 end)
              (cites elem) citations
        | None => citations
        end
      else citations
  | None => citations
  end.

(** The body of the loop of [build_citation_database]. *)
Definition index_record (ix : index) (elem : record) : index :=
  match key elem with
  | Some dblp_key =>
      if truthy dblp_key then
        {| doi_to_key_map := index_ee dblp_key elem (doi_to_key_map ix);
           title_to_key_map := index_title dblp_key elem (title_to_key_map ix);
           citations_map := index_cites elem (citations_map ix) |}
      else ix
  | None => ix
  end.

(** [etree.iterparse(..., tag=PUBLICATION_TAGS)]: the elements of the
    document whose tag is one of the publication tags, in document order. *)
Definition iterparse (elems : list record) : list record :=
  List.filter (fun e => bool_decide (tag e ∈ PUBLICATION_TAGS)) elems.

Definition index_records (elems : list record) : index :=
  fold_left index_record (iterparse elems) empty_index.

Definition is_XMLSyntaxError (e : exn) : bool :=
  match e with
  | XMLSyntaxError => true
  | _ => false
  end.

(** [build_citation_database(dblp_xml_path)].  The [try] of lines 98-111
    holds only the call of [etree.iterparse], which reads nothing yet and
    returns the iterator; the document is parsed by the loop of line 118,
    outside the [try], where a parse error is not caught. *)
Definition build_citation_database (doc : xml) : M index :=
  context <- try_except (ret doc) is_XMLSyntaxError
                        (fun _ => raise (SystemExit 1)) ;;
  match context with
  | Malformed => raise XMLSyntaxError
  | Doc elems => ret (index_records elems)
  end.

(** *** The resolver and the pipeline *)

Record args := {
  no_dblp : bool;
  no_openalex : bool
}.

(** [a or b] on two results of [dict.get]. *)
Definition py_or (a b : option str) : option str :=
  match a with
  | Some k => if truthy k then a else b
  | None => b
  end.

(** Lines 195-199: the DBLP years of one paper. *)
Definition dblp_years (ix : index) (paper_doi paper_title : str) : list Z :=
  let dblp_key := py_or (doi_to_key_map ix !! paper_doi)
                        (title_to_key_map ix !! normalize_title (Some paper_title)) in
  match dblp_key with
  | Some k =>
      if truthy k then
        match citations_map ix !! k with
        | Some years => years
        | None => []
        end
      else []
  | None => []
  end.

(** Lines 206-211: the new field, [str(last_cited_year)]. *)
Definition last_cited_year (all_citation_years : list Z) : str :=
  match all_citation_years with
  | [] => lit "NOT_CITED"
  | y :: ys => str_of_int (py_max y ys)
  end.

(** Lines 189-204: the citing years of one row, from both sources. *)
Definition citation_years_of (a : args) (ix : index) (paper_doi paper_title : str)
  : M (list Z) :=
  let dblp := if no_dblp a then [] else dblp_years ix paper_doi paper_title in
  openalex_years <- (if no_openalex a then ret []
                     else get_openalex_citation_years paper_doi) ;;
  ret (dblp ++ openalex_years).

(** The body of the loop over the rows: the output row. *)
Definition process_row (a : args) (ix : index) (doi_idx title_idx : nat)
    (row : list str) : M (list str) :=
  d <- item row doi_idx ;;
  t <- item row title_idx ;;
  all_citation_years <- citation_years_of a ix (strip d) (strip t) ;;
  ret (row ++ [last_cited_year all_citation_years]).

Fixpoint process_rows (a : args) (ix : index) (doi_idx title_idx : nat)
    (rows : list (list str)) : M (list (list str)) :=
  match rows with
  | [] => ret []
  | row :: rest =>
      out <- process_row a ix doi_idx title_idx row ;;
      outs <- process_rows a ix doi_idx title_idx rest ;;
      ret (out :: outs)
  end.

(** Lines 179-185 *)
Definition read_input : M (list str * list (list str)) :=
  f <- gets input_file ;;
  match f with
  | None => raise FileNotFoundError
  | Some (Unreadable e) => raise e
  | Some (Rows []) => raise IndexError
  | Some (Rows (header :: rows)) => ret (header, rows)
  end.

(** Lines 214-217 *)
Definition write_output (t : list (list str)) : M unit :=
  modify (fun w => log WriteOutput (set_output_file t w)).

(** The [try] block of [process_papers]. *)
Definition enrich (a : args) (ix : index) : M unit :=
  input <- read_input ;;
  let header := fst input in
  let rows := snd input in
  doi_idx <- py_index header (lit "DOI") ;;
  title_idx <- py_index header (lit "title") ;;
  output_rows <- process_rows a ix doi_idx title_idx rows ;;
  write_output ((header ++ [lit "last_cited_year"]) :: output_rows).

(** [save_api_cache(api_cache)] *)
Definition flush : M unit :=
  cache <- gets api_cache ;; save_api_cache cache.

(** [except FileNotFoundError] and [except ValueError], which also
    catches the subclasses of [ValueError]. *)
Definition handled (e : exn) : bool :=
  match e with
  | FileNotFoundError | ValueError | JSONDecodeError | UnicodeDecodeError =>
      true
  | _ => false
  end.

(** The [try ... except ... finally] of [process_papers]: the enrichment
    phase. *)
Definition enrichment_phase (a : args) (ix : index) : M unit :=
  try_finally
    (try_except (enrich a ix) handled (fun _ => raise (SystemExit 1)))
    flush.

(** Lines 165-174 *)
Definition load_dblp (a : args) : M (args * index) :=
  if no_dblp a then ret (a, empty_index)
  else
    doc <- gets dblp_file ;;
    dtd <- gets dtd_present ;;
    match doc, dtd with
    | Some d, true => ix <- build_citation_database d ;; ret (a, ix)
    | _, _ => ret ({| no_dblp := true; no_openalex := no_openalex a |}, empty_index)
    end.

(** [process_papers(args)] *)
Definition process_papers (a : args) : M unit :=
  cache <- load_api_cache ;;
  modify (set_api_cache cache) ;;;
  loaded <- load_dblp a ;;
  enrichment_phase (fst loaded) (snd loaded).

End Script.

(** The world at the start of a run, with a cache file and an input file
    that are absent or readable: nothing looked up, nothing written. *)
Definition start (cache : option (gmap str (list Z)))
    (input : option (list (list str))) (dblp : option xml) (dtd : bool)
  : world :=
  {| api_cache := ∅; cache_file := option_map Json cache;
     input_file := option_map Rows input;
     dblp_file := dblp; dtd_present := dtd; output_file := None; trace := [] |}.

(** ** Vocabulary of the statements *)

(** A code point that [str.lower] leaves alone wherever it stands. *)
Definition lowered `{PyText} (c : char) : Prop :=
  forall b a, lower_at b c a = [c].

(** [run_step w w' tr]: between the worlds [w] and [w'] the run did [tr]
    to the outside, wrote no cache file, only added to the dict, sent
    lookups only for identifiers the dict of [w] had no entry for, and has
    in the dict of [w'] what every answered lookup returned. *)
Record run_step (w w' : world) (tr : list event) : Prop := {
  step_trace : trace w' = trace w ++ tr;
  step_cache : api_cache w ⊆ api_cache w';
  step_file : cache_file w' = cache_file w;
  step_no_flush : ~ In Flush tr;
  step_fresh : forall doi answer,
    In (Query doi answer) tr -> api_cache w !! cache_key doi = None;
  step_answered : forall doi works,
    In (Query doi (Cites works)) tr ->
    api_cache w' !! cache_key doi = Some (publication_years works)
}.

(** Every run of [m] is a [run_step]. *)
Definition steps {A} (m : M A) : Prop :=
  forall w r w', m w = (r, w') -> exists tr, run_step w w' tr.

(** What the resolver answers on the evidence [years]: the sentinel on no
    evidence, else the decimal form of a year of the evidence that no
    other year exceeds. *)
Definition resolves (years : list Z) (answer : str) : Prop :=
  match years with
  | [] => answer = lit "NOT_CITED"
  | _ :: _ =>
      exists y, In y years /\ Forall (fun x => x <= y) years
                /\ answer = str_of_int y
  end.

(** ** Worked inputs *)

Module Examples.
Import Ascii7.

Definition flags (no_dblp no_openalex : bool) : args :=
  {| no_dblp := no_dblp; no_openalex := no_openalex |}.

(** A record whose only [ee] is the bare resolver address. *)
Definition bare_ee : record :=
  {| tag := lit "article"; key := Some (lit "conf/x/A");
     title := None; ees := [Some (lit "https://doi.org/")];
     year := None; cites := [] |}.

(** A record of 2020 that cites it. *)
Definition citing : record :=
  {| tag := lit "article"; key := Some (lit "conf/x/B");
     title := Some (lit "On Things"); ees := [];
     year := Some (lit "2020"); cites := [Some (lit "conf/x/A")] |}.

(** A record whose title has no letter or digit. *)
Definition punctuation_title : record :=
  {| tag := lit "article"; key := Some (lit "conf/x/C");
     title := Some (lit "?!"); ees := []; year := None; cites := [] |}.

(** A service that knows one citing work of 2019 for every identifier. *)
Definition always_2019 (n : nat) (doi : str) : reply := Cites [Some 2019].

(** A service that answers the first lookup and fails afterwards. *)
Definition first_only (n : nat) (doi : str) : reply :=
  match n with
  | O => Cites [Some 2019]
  | S _ => Raises ApiError
  end.

(** A service that is down. *)
Definition down (n : nat) (doi : str) : reply := Raises ApiError.

(** A world in which nothing exists yet. *)
Definition blank : world := start None None None false.

(** A world whose dict knows that nothing cites [10.1/a]. *)
Definition warm : world :=
  set_api_cache (<[cache_key (lit "10.1/a") := []]> ∅) blank.

(** A paper with the identifier [10.1/p], cited from 2015 and from 2018. *)
Definition cited_paper : record :=
  {| tag := lit "inproceedings"; key := Some (lit "conf/x/P");
     title := Some (lit "A Cited Paper");
     ees := [Some (lit "https://doi.org/10.1/p")];
     year := Some (lit "2010"); cites := [] |}.

Definition citer (k y : string) : record :=
  {| tag := lit "article"; key := Some (lit k); title := None; ees := [];
     year := Some (lit y); cites := [Some (lit "..."); Some (lit "conf/x/P")] |}.

Definition small_corpus : list record :=
  [cited_paper; citer "journals/y/Q" "2015"; citer "journals/y/R" "2018"].

(** A service that knows one citing work of 2020 for every identifier. *)
Definition always_2020 (n : nat) (doi : str) : reply :=
  Cites [Some 2020; None].

Definition cited_row : list str := [lit " 10.1/p "; lit "A cited paper!"].

Definition two_rows : list (list str) :=
  [ [lit "DOI"; lit "title"; lit "venue"];
    [lit "10.1/a"; lit "First"; lit "X"];
    [lit "10.1/b"; lit "Second"; lit "Y"] ].

(** The second row is too short to have a title. *)
Definition short_row : list (list str) :=
  [ [lit "DOI"; lit "title"];
    [lit "10.1/a"; lit "First"];
    [lit "10.1/b"] ].

End Examples.

(** ** Vocabulary of the further statements *)

(** The year a record cites with: the integer its [year] text parses to,
    for a record with a key. *)
Definition citing_year `{PyText} (r : record) : option Z :=
  match key r, year r with
  | Some k, Some text =>
      if truthy k && truthy text then int_of_str text else None
  | _, _ => None
  end.

(** The years a record adds under the key [cited]: its year, once for
    every [cite] child with that text. *)
Definition contribution `{PyText} (r : record) (cited : str) : list Z :=
  match citing_year r with
  | Some y =>
      flat_map (fun c => if decide (c = Some cited) then [y] else []) (cites r)
  | None => []
  end.

(** What holds of every entry of the citations map. *)
Definition citations_wf (m : gmap str (list Z)) : Prop :=
  forall k ys, m !! k = Some ys ->
               ys <> [] /\ truthy k = true /\ k <> lit "...".

(** The events of [qs] are lookups of non-empty identifiers. *)
Definition lookups (qs : list event) : Prop :=
  Forall (fun e => exists doi answer,
              e = Query doi answer /\ truthy doi = true) qs.

(** [row_step w w' qs]: between [w] and [w'] the run sent the lookups
    [qs] and did nothing else to the outside; no file changed, and the
    dict gained at most the results of the answered lookups of [qs]. *)
Record row_step (w w' : world) (qs : list event) : Prop := {
  row_trace : trace w' = trace w ++ qs;
  row_lookups : lookups qs;
  row_files :
    cache_file w' = cache_file w /\ input_file w' = input_file w
    /\ dblp_file w' = dblp_file w /\ dtd_present w' = dtd_present w
    /\ output_file w' = output_file w;
  row_added : forall k v,
    api_cache w' !! k = Some v ->
    api_cache w !! k = Some v
    \/ exists doi works,
         In (Query doi (Cites works)) qs
         /\ k = cache_key doi /\ v = publication_years works
}.

(** What can come out of the loop over the rows: a result, [IndexError]
    from a short row, or what the service raised past [except
    Exception]. *)
Definition escapes {A} (r : res A) (qs : list event) : Prop :=
  match r with
  | Ret _ => True
  | Raise e =>
      e = IndexError
      \/ (is_Exception e = false /\ exists doi, In (Query doi (Raises e)) qs)
  end.

(** Every run of [m] sends at most [n] lookups and does nothing else. *)
Definition sends {A} (m : M A) (n : nat) : Prop :=
  forall w r w',
    m w = (r, w') ->
    exists qs, row_step w w' qs /\ (length qs <= n)%nat /\ escapes r qs.

(** The rows of the input file below its header. *)
Definition data_rows (w : world) : list (list str) :=
  match input_file w with
  | Some (Rows (_ :: rows)) => rows
  | _ => []
  end.

(** Reading a field back: the integer whose decimal form the code points
    are. *)
Definition int_of_field (s : str) : option Z :=
  option_map Z.of_int
    (NilZero.int_of_string (string_of_list_ascii (List.map ascii_of_N s))).

(** The marker starts nowhere inside [pre] when [pre] is followed by
    [tail]. *)
Fixpoint starts_nowhere (sep pre tail : str) : bool :=
  match pre with
  | [] => true
  | _ :: pre' =>
      negb (is_prefix sep (pre ++ tail)) && starts_nowhere sep pre' tail
  end.

(** ** Further worked inputs *)

Module MoreExamples.
Import Ascii7.

(** An element that has lost its key. *)
Definition keyless : record :=
  {| tag := lit "article"; key := None; title := Some (lit "Lost");
     ees := [Some (lit "https://doi.org/10.1/lost")];
     year := Some (lit "1999"); cites := [Some (lit "conf/x/P")] |}.

(** A table whose header does not name the identifier column. *)
Definition no_doi_column : list (list str) :=
  [ [lit "title"; lit "venue"]; [lit "First"; lit "X"] ].

(** A world with that table as input. *)
Definition reads (input : list (list str)) : world :=
  start None (Some input) None false.

(** A row whose identifier field is white space. *)
Definition blank_doi_row : list str := [lit "  "; lit "Some Title"].

(** The [ee] children of a record with a home page before its DOI link. *)
Definition links : list (option str) :=
  [None; Some (lit "https://example.org/paper.pdf");
   Some (lit "https://doi.org/10.1/p"); Some (lit "https://doi.org/10.1/q")].

(** A world whose cache file is not a JSON document. *)
Definition garbled : world :=
  {| api_cache := ∅; cache_file := Some Garbled;
     input_file := Some (Rows Examples.two_rows); dblp_file := None;
     dtd_present := false; output_file := None; trace := [] |}.

(** A world whose input file exists and cannot be read. *)
Definition unreadable (e : exn) : world :=
  {| api_cache := ∅; cache_file := None;
     input_file := Some (Unreadable e); dblp_file := None;
     dtd_present := false; output_file := None; trace := [] |}.

End MoreExamples.

(** * Properties *)

(** The worked inputs are run on the ASCII interpreter. *)
#[local] Existing Instance Ascii7.text | 100.

(** ** Title normalisation *)

Section TextFacts.
Context `{PyText}.

Lemma lower_from_lowered (s : str) :
  Forall lowered s -> forall before, lower_from before s = s.
Proof.
  induction 1 as [|c s Hc Hs IH]; intros before; simpl.
  - reflexivity.
  - rewrite Hc, IH. reflexivity.
Qed.

Lemma lower_from_Forall `{!PyTextLaws} (s before : str) :
  Forall lowered (lower_from before s).
Proof.
  revert before. induction s as [|c s IH]; intros before; simpl.
  - constructor.
  - apply Forall_app. split; [|apply IH].
    apply List.Forall_forall. intros c' Hin b a.
    eapply lower_stable; eassumption.
Qed.

Lemma re_sub_nonword_Forall (P : char -> Prop) (s : str) :
  Forall P s -> Forall P (re_sub_nonword s).
Proof.
  unfold re_sub_nonword. induction 1; simpl; [constructor|].
  destruct (negb _); [constructor|]; assumption.
Qed.

Lemma re_sub_nonword_kept (s : str) :
  Forall (fun c => isalnum c = true /\ c <> underscore) (re_sub_nonword s).
Proof.
  unfold re_sub_nonword. induction s as [|c s IH]; simpl; [constructor|].
  destruct (negb (re_W_or_underscore c)) eqn:E; [|exact IH].
  constructor; [|exact IH].
  unfold re_W_or_underscore, re_W in E.
  destruct (isalnum c), (N.eqb_spec c underscore); simpl in E;
    try discriminate; auto.
Qed.

Lemma re_sub_nonword_idem (s : str) :
  re_sub_nonword (re_sub_nonword s) = re_sub_nonword s.
Proof.
  unfold re_sub_nonword. induction s as [|c s IH]; simpl; [reflexivity|].
  destruct (negb (re_W_or_underscore c)) eqn:E; simpl; [rewrite E|];
    rewrite ?IH; reflexivity.
Qed.

Lemma normalize_title_lowered `{!PyTextLaws} (title : option str) :
  Forall lowered (normalize_title title).
Proof.
  destruct title as [t|]; simpl; [|constructor].
  destruct (truthy t); [|constructor].
  apply re_sub_nonword_Forall, lower_from_Forall.
Qed.

(** C6, as amended.  [normalize_title] is idempotent, maps a missing or
    empty title to the empty string, and returns only code points that
    are alphanumeric in the sense of [str.isalnum], are not the
    underscore and are left alone by [str.lower]. *)
Theorem normalize_title_idempotent `{!PyTextLaws} (title : option str) :
  normalize_title (Some (normalize_title title)) = normalize_title title
  /\ normalize_title None = []
  /\ normalize_title (Some []) = []
  /\ Forall (fun c => isalnum c = true /\ c <> underscore /\ lowered c)
            (normalize_title title).
Proof.
  split; [|split; [reflexivity|split; [reflexivity|]]].
  - pose proof (normalize_title_lowered title) as Hl.
    destruct title as [t|]; simpl in *; [|reflexivity].
    destruct (truthy t); [|reflexivity].
    destruct (truthy (re_sub_nonword (py_lower t))) eqn:E.
    + unfold py_lower at 1. rewrite lower_from_lowered by exact Hl.
      apply re_sub_nonword_idem.
    + destruct (re_sub_nonword (py_lower t)); [reflexivity|discriminate].
  - pose proof (normalize_title_lowered title) as Hl.
    assert (Hk : Forall (fun c => isalnum c = true /\ c <> underscore)
                        (normalize_title title)).
    { destruct title as [t|]; simpl; [|constructor].
      destruct (truthy t); [|constructor]. apply re_sub_nonword_kept. }
    rewrite List.Forall_forall in *. intros c Hc.
    destruct (Hk c Hc). auto.
Qed.

End TextFacts.

Lemma ascii7_laws : @PyTextLaws Ascii7.text.
Proof.
  constructor. intros before c after c' Hin b a. simpl in *.
  destruct Hin as [<-|[]]. f_equal.
  unfold Ascii7.a_lower, Ascii7.between.
  repeat match goal with
         | |- context [N.leb ?x ?y] => destruct (N.leb_spec x y); simpl
         end; try reflexivity; simpl in *; lia.
Qed.

Lemma normalize_title_idempotent_witness :
  @PyTextLaws Ascii7.text
  /\ let title := Some (lit "Hello, World_42!") in
     normalize_title (Some (normalize_title title)) = normalize_title title
     /\ normalize_title None = []
     /\ normalize_title (Some []) = []
     /\ Forall (fun c => isalnum c = true /\ c <> underscore /\ lowered c)
               (normalize_title title).
Proof.
  split; [exact ascii7_laws|].
  exact (@normalize_title_idempotent Ascii7.text ascii7_laws
           (Some (lit "Hello, World_42!"))).
Defined.

Lemma latin1_laws : @PyTextLaws Latin1.text.
Proof.
  constructor. intros before c after c' Hin b a. simpl in *.
  destruct Hin as [<-|[]]. f_equal. unfold Latin1.l_lower.
  destruct (Latin1.l_isupper c) eqn:Hu; [|rewrite Hu; reflexivity].
  destruct (Latin1.l_isupper (c + 32)) eqn:Hu'; [exfalso|reflexivity].
  unfold Latin1.l_isupper, Latin1.between, Ascii7.between in Hu, Hu'.
  rewrite !orb_true_iff, !andb_true_iff, !N.leb_le in Hu, Hu'. lia.
Qed.

(** C6, as stated, fails: the vulgar fraction one half, U+00BD, is
    numeric, so it is a word character for the regular expression and
    [normalize_title] keeps it; it is neither a letter nor a digit.  The
    same holds of the other code points that are alphanumeric without
    being lower-case letters or digits. *)
Lemma one_half_survives_normalisation :
  @normalize_title Latin1.text (Some [189%N]) = [189%N]
  /\ Latin1.l_isalpha 189 = false /\ Latin1.l_isdigit 189 = false
  /\ ~ Forall (fun c => Latin1.lower_letter_or_digit c = true)
              (@normalize_title Latin1.text (Some [189%N])).
Proof.
  split; [reflexivity|]. split; [reflexivity|]. split; [reflexivity|].
  intros Hall. inversion Hall as [|c l Hc _]. discriminate Hc.
Qed.

(** On the ASCII tables the code points that survive are [a-z] and
    [0-9]. *)
Lemma ascii7_lowered_alnum (c : N) :
  Ascii7.a_isalnum c = true -> @lowered Ascii7.text c ->
  (Ascii7.between 48 57 c || Ascii7.between 97 122 c)%bool = true.
Proof.
  intros Ha Hl. specialize (Hl [] []). simpl in Hl.
  injection Hl as Hl. revert Ha Hl.
  unfold Ascii7.a_isalnum, Ascii7.a_lower, Ascii7.between.
  repeat match goal with
         | |- context [N.leb ?x ?y] => destruct (N.leb_spec x y); simpl
         end; intros; try reflexivity; try discriminate; lia.
Qed.

Example normalize_title_hello :
  normalize_title (Some (lit "Hello, World_42!")) = lit "helloworld42"
  /\ normalize_title (Some (lit "?!")) = [].
Proof. vm_compute. split; reflexivity. Qed.

(** ** The monad *)

Lemma bind_inv {A B} (m : M A) (k : A -> M B) w r w' :
  bind m k w = (r, w') ->
  (exists a w1, m w = (Ret a, w1) /\ k a w1 = (r, w'))
  \/ (exists e, m w = (Raise e, w') /\ r = Raise e).
Proof.
  unfold bind. destruct (m w) as [[a|e] w1]; intros Heq.
  - left. eauto.
  - right. inversion Heq; subst. eauto.
Qed.

Lemma run_step_refl w : run_step w w [].
Proof.
  constructor; simpl; try tauto.
  - symmetry. apply app_nil_r.
  - reflexivity.
Qed.

Lemma run_step_trans w1 w2 w3 tr1 tr2 :
  run_step w1 w2 tr1 -> run_step w2 w3 tr2 -> run_step w1 w3 (tr1 ++ tr2).
Proof.
  intros [T1 C1 F1 N1 Q1 A1] [T2 C2 F2 N2 Q2 A2]. constructor.
  - rewrite T2, T1. symmetry. apply app_assoc.
  - etransitivity; eassumption.
  - congruence.
  - intros Hin. apply in_app_or in Hin. tauto.
  - intros doi answer Hin. apply in_app_or in Hin as [Hin|Hin].
    + eauto.
    + eapply lookup_weaken_None; eauto.
  - intros doi works Hin. apply in_app_or in Hin as [Hin|Hin].
    + eapply lookup_weaken; eauto.
    + eauto.
Qed.

Lemma steps_ret {A} (a : A) : steps (ret a).
Proof. intros w r w' [= <- <-]. eexists. apply run_step_refl. Qed.

Lemma steps_raise {A} (e : exn) : steps (@raise A e).
Proof. intros w r w' [= <- <-]. eexists. apply run_step_refl. Qed.

Lemma steps_gets {A} (f : world -> A) : steps (gets f).
Proof. intros w r w' [= <- <-]. eexists. apply run_step_refl. Qed.

Lemma steps_bind {A B} (m : M A) (k : A -> M B) :
  steps m -> (forall a, steps (k a)) -> steps (bind m k).
Proof.
  intros Hm Hk w r w' Hrun.
  apply bind_inv in Hrun as [(a & w1 & H1 & H2)|(e & H1 & ->)].
  - destruct (Hm _ _ _ H1) as [tr1 S1], (Hk _ _ _ _ H2) as [tr2 S2].
    eexists. eapply run_step_trans; eassumption.
  - eauto.
Qed.

Lemma steps_try_except {A} (m : M A) handled (h : exn -> M A) :
  steps m -> (forall e, steps (h e)) -> steps (try_except m handled h).
Proof.
  intros Hm Hh w r w' Hrun. unfold try_except in Hrun.
  destruct (m w) as [[a|e] w1] eqn:E.
  - inversion Hrun; subst. eauto.
  - destruct (handled e).
    + destruct (Hm _ _ _ E) as [tr1 S1], (Hh _ _ _ _ Hrun) as [tr2 S2].
      eexists. eapply run_step_trans; eassumption.
    + inversion Hrun; subst. eauto.
Qed.

Lemma steps_item {A} (l : list A) i : steps (item l i).
Proof. unfold item. destruct (nth_error l i); [apply steps_ret|apply steps_raise]. Qed.

Lemma steps_py_index l x : steps (py_index l x).
Proof. unfold py_index. destruct (index_of x l); [apply steps_ret|apply steps_raise]. Qed.

(** ** The query cache and the lookup *)

Section Lookup.
Context `{PyText}.
Variable remote : nat -> str -> reply.

(** The lookup, case by case. *)
Lemma get_openalex_citation_years_eq doi w :
  get_openalex_citation_years remote doi w =
  if negb (truthy doi) then (Ret [], w)
  else
    match api_cache w !! cache_key doi with
    | Some years => (Ret years, w)
    | None =>
        let answer := remote (queries_made w) doi in
        let w1 := log (Query doi answer) w in
        match answer with
        | Cites works =>
            (Ret (publication_years works),
             set_api_cache (<[cache_key doi := publication_years works]>
                              (api_cache w)) w1)
        | Raises e =>
            if is_Exception e then (Ret [], w1) else (Raise e, w1)
        end
    end.
Proof.
  unfold get_openalex_citation_years.
  destruct (negb (truthy doi)); [reflexivity|].
  unfold bind at 1, gets at 1.
  destruct (api_cache w !! cache_key doi); [reflexivity|].
  unfold bind, try_except, query_openalex, cache_put, modify, ret. simpl.
  destruct (remote (queries_made w) doi) as [works|e]; simpl; [reflexivity|].
  destruct (is_Exception e); reflexivity.
Qed.

Lemma run_step_log_query doi answer w :
  api_cache w !! cache_key doi = None ->
  (forall works, answer <> Cites works) ->
  run_step w (log (Query doi answer) w) [Query doi answer].
Proof.
  intros Hnone Hans. constructor; simpl; try reflexivity.
  - intros [|[]]; discriminate.
  - intros d a [[= <- <-]|[]]. exact Hnone.
  - intros d works [[= _ Heq]|[]]. destruct (Hans works). exact Heq.
Qed.

Lemma steps_get_openalex doi : steps (get_openalex_citation_years remote doi).
Proof.
  intros w r w'. rewrite get_openalex_citation_years_eq.
  destruct (negb (truthy doi)).
  { intros [= <- <-]. eexists. apply run_step_refl. }
  destruct (api_cache w !! cache_key doi) as [years|] eqn:Hc.
  { intros [= <- <-]. eexists. apply run_step_refl. }
  simpl. destruct (remote (queries_made w) doi) as [works|e] eqn:Hr.
  - intros [= <- <-]. exists [Query doi (Cites works)].
    constructor; simpl; try reflexivity.
    + apply insert_subseteq. exact Hc.
    + intros [|[]]; discriminate.
    + intros d a [[= <- <-]|[]]. exact Hc.
    + intros d ws [[= <- <-]|[]]. apply lookup_insert_eq.
  - destruct (is_Exception e); intros [= <- <-]; eexists;
      apply run_step_log_query; auto; discriminate.
Qed.

End Lookup.

(** ** The pipeline, step by step *)

Section Pipeline.
Context `{PyText}.
Variable remote : nat -> str -> reply.

Lemma steps_citation_years_of a ix d t :
  steps (citation_years_of remote a ix d t).
Proof.
  unfold citation_years_of. apply steps_bind.
  - destruct (no_openalex a); [apply steps_ret|apply steps_get_openalex].
  - intros. apply steps_ret.
Qed.

Lemma steps_process_row a ix di ti row :
  steps (process_row remote a ix di ti row).
Proof.
  unfold process_row.
  apply steps_bind; [apply steps_item|intros d].
  apply steps_bind; [apply steps_item|intros t].
  apply steps_bind; [apply steps_citation_years_of|intros ys].
  apply steps_ret.
Qed.

Lemma steps_process_rows a ix di ti rows :
  steps (process_rows remote a ix di ti rows).
Proof.
  induction rows as [|row rows IH]; simpl.
  - apply steps_ret.
  - apply steps_bind; [apply steps_process_row|intros out].
    apply steps_bind; [exact IH|intros outs]. apply steps_ret.
Qed.

Lemma steps_read_input : steps read_input.
Proof.
  unfold read_input. apply steps_bind; [apply steps_gets|].
  intros [[e|[|header rows]]|]; first [apply steps_ret|apply steps_raise].
Qed.

Lemma steps_write_output t : steps (write_output t).
Proof.
  intros w r w' [= <- <-]. exists [WriteOutput].
  constructor; simpl; try reflexivity.
  - intros [|[]]; discriminate.
  - intros d a [|[]]; discriminate.
  - intros d a [|[]]; discriminate.
Qed.

Lemma steps_enrich a ix : steps (enrich remote a ix).
Proof.
  unfold enrich.
  apply steps_bind; [apply steps_read_input|intros input].
  apply steps_bind; [apply steps_py_index|intros di].
  apply steps_bind; [apply steps_py_index|intros ti].
  apply steps_bind; [apply steps_process_rows|intros outs].
  apply steps_write_output.
Qed.

(** The [finally] clause runs after whatever the [try] block did. *)
Lemma enrichment_phase_inv a ix w r w' :
  enrichment_phase remote a ix w = (r, w') ->
  exists w1 tr,
    run_step w w1 tr
    /\ try_except (enrich remote a ix) handled
                  (fun _ => raise (SystemExit 1)) w = (r, w1)
    /\ w' = log Flush (set_cache_file (api_cache w1) w1).
Proof.
  unfold enrichment_phase, try_finally.
  destruct (try_except _ _ _ w) as [r1 w1] eqn:E.
  intros [= <- <-].
  assert (St : steps (try_except (enrich remote a ix) handled
                        (fun _ => raise (SystemExit 1)))).
  { apply steps_try_except; [apply steps_enrich|intros; apply steps_raise]. }
  destruct (St _ _ _ E) as [tr S]. eauto.
Qed.

(** [process_papers], case by case. *)
Lemma process_papers_eq a w :
  process_papers remote a w =
  match cache_file w with
  | Some Garbled => (Raise JSONDecodeError, w)
  | _ =>
      let w0 := set_api_cache (loaded w) w in
      if no_dblp a then enrichment_phase remote a empty_index w0
      else
        match dblp_file w, dtd_present w with
        | Some Malformed, true => (Raise XMLSyntaxError, w0)
        | Some (Doc elems), true =>
            enrichment_phase remote a (index_records elems) w0
        | _, _ =>
            enrichment_phase remote
              {| no_dblp := true; no_openalex := no_openalex a |}
              empty_index w0
        end
  end.
Proof.
  unfold process_papers, load_api_cache, load_dblp, build_citation_database.
  unfold bind at 1, bind at 1, gets at 1.
  destruct (cache_file w) as [[|c]|] eqn:Hc; [reflexivity| |];
    (unfold gets at 1, bind at 1, modify at 1; cbv zeta;
     destruct (no_dblp a); [reflexivity|];
     unfold bind, gets, try_except, ret, raise; simpl;
     destruct (dblp_file w) as [[|elems]|], (dtd_present w); reflexivity).
Qed.

(** A run stops at a cache file that is not JSON or at a malformed
    corpus, before the enrichment phase, or goes through the enrichment
    phase. *)
Lemma process_papers_inv a w r w' :
  process_papers remote a w = (r, w') ->
  let w0 := set_api_cache (loaded w) w in
  (cache_file w = Some Garbled /\ r = Raise JSONDecodeError /\ w' = w)
  \/ (cache_file w <> Some Garbled /\ no_dblp a = false
      /\ dblp_file w = Some Malformed /\ dtd_present w = true
      /\ r = Raise XMLSyntaxError /\ w' = w0)
  \/ (cache_file w <> Some Garbled
      /\ exists a' ix, enrichment_phase remote a' ix w0 = (r, w')).
Proof.
  rewrite process_papers_eq. cbv zeta.
  destruct (cache_file w) as [[|c]|] eqn:Hc.
  { intros [= <- <-]. left. auto. }
  all: destruct (no_dblp a) eqn:Hd;
    [intros E; right; right; split; [discriminate|eauto]|];
    destruct (dblp_file w) as [[|elems]|] eqn:Hf, (dtd_present w) eqn:Hp;
    intros E;
    first [ injection E as <- <-; right; left;
            repeat split; auto; discriminate
          | right; right; split; [discriminate|eauto] ].
Qed.

(** A run sends lookups only for identifiers the cache file had no entry
    for, and leaves a cache file that has every entry it had. *)
Lemma process_papers_run a w :
  exists tr,
    trace (snd (process_papers remote a w)) = trace w ++ tr
    /\ (forall doi answer,
          In (Query doi answer) tr -> loaded w !! cache_key doi = None)
    /\ loaded w ⊆ loaded (snd (process_papers remote a w)).
Proof.
  destruct (process_papers remote a w) as [r w'] eqn:E. simpl.
  apply process_papers_inv in E
    as [(_ & _ & ->)|[(_ & _ & _ & _ & _ & ->)|(_ & a' & ix & E)]].
  - exists []. simpl. rewrite app_nil_r. repeat split; [tauto|reflexivity].
  - exists []. simpl. rewrite app_nil_r. repeat split; [tauto|reflexivity].
  - apply enrichment_phase_inv in E as (w1 & tr & S & _ & ->).
    destruct S as [T C F N Q A]. simpl in *.
    exists (tr ++ [Flush]). rewrite T, app_assoc. repeat split.
    + intros doi answer Hin. apply in_app_or in Hin as [Hin|[Hin|[]]].
      * eauto.
      * discriminate.
    + exact C.
Qed.

End Pipeline.

(** ** The query cache across a run *)

Section Cache.
Context `{PyText}.
Variable remote : nat -> str -> reply.

(** X18. A run that finds the cache file absent or holding a JSON
    document, and the corpus switched off, missing or well formed, gets
    to the enrichment phase: it writes the cache file exactly once, as
    the last thing it does. *)
Lemma process_papers_flushes_once (a : args) (w : world) :
  cache_file w <> Some Garbled ->
  no_dblp a = true \/ dblp_file w <> Some Malformed \/ dtd_present w = false ->
  exists tr,
    trace (snd (process_papers remote a w)) = trace w ++ tr ++ [Flush]
    /\ ~ In Flush tr.
Proof.
  intros Hcache Hok.
  destruct (process_papers remote a w) as [r w'] eqn:E. simpl.
  apply process_papers_inv in E
    as [(Hg & _)|[(_ & Hd & Hf & Hp & _)|(_ & a' & ix & E)]].
  - contradiction.
  - destruct Hok as [Hok|[Hok|Hok]]; congruence.
  - apply enrichment_phase_inv in E as (w1 & tr & [T C F N Q A] & _ & ->).
    simpl in *. exists tr. rewrite T, <- app_assoc. auto.
Qed.

(** C10. For the empty identifier the lookup returns the empty list and
    leaves the world as it is, whatever the dict holds: no lookup is sent,
    no entry is made, and the same holds for the whole resolution of a
    paper with an empty identifier. *)
Theorem empty_identifier_skips_lookup (w : world) :
  get_openalex_citation_years remote [] w = (Ret [], w)
  /\ forall a ix paper_title,
       snd (citation_years_of remote a ix [] paper_title w) = w.
Proof.
  split; [reflexivity|].
  intros a ix t. unfold citation_years_of.
  destruct (no_openalex a); reflexivity.
Qed.

(** C5. Once a key is in the cache, also with an empty list, the lookup
    returns the cached list and sends nothing; the rest of the run sends
    no lookup for a key the dict holds; a later run sends no lookup for a
    key the cache file holds, and keeps every entry of the file. *)
Theorem cached_key_never_queried (doi : str) (w : world) (years : list Z) :
  truthy doi = true ->
  api_cache w !! cache_key doi = Some years ->
  get_openalex_citation_years remote doi w = (Ret years, w)
  /\ (forall a ix di ti rows,
        exists tr,
          trace (snd (process_rows remote a ix di ti rows w)) = trace w ++ tr
          /\ (forall answer, ~ In (Query doi answer) tr)
          /\ api_cache (snd (process_rows remote a ix di ti rows w))
               !! cache_key doi = Some years)
  /\ (forall remote' a w_next,
        cache_file w_next = Some (Json (api_cache w)) ->
        exists tr,
          trace (snd (process_papers remote' a w_next)) = trace w_next ++ tr
          /\ (forall answer, ~ In (Query doi answer) tr)
          /\ loaded (snd (process_papers remote' a w_next))
               !! cache_key doi = Some years).
Proof.
  intros Hd Hc. split; [|split].
  - rewrite get_openalex_citation_years_eq, Hd, Hc. reflexivity.
  - intros a ix di ti rows.
    destruct (process_rows remote a ix di ti rows w) as [r w'] eqn:E.
    apply steps_process_rows in E as [tr [T C F N Q A]]. simpl.
    exists tr. repeat split; [exact T| |eapply lookup_weaken; eauto].
    intros answer Hin. apply Q in Hin. congruence.
  - intros remote' a w_next Hf.
    destruct (process_papers_run remote' a w_next) as (tr & T & Q & C).
    assert (Hl : loaded w_next = api_cache w) by (unfold loaded; rewrite Hf; reflexivity).
    exists tr. repeat split; [exact T| |].
    + intros answer Hin. apply Q in Hin. congruence.
    + apply (lookup_weaken (loaded w_next)); [rewrite Hl; exact Hc|exact C].
Qed.

(** C4. A lookup that fails with an exception returns the empty list, does
    not raise, and leaves the dict as it was, without an entry for the
    identifier; a later lookup against a dict without that entry sends the
    query again. *)
Theorem remote_failure_not_cached (doi : str) (w : world) (e : exn) :
  truthy doi = true ->
  api_cache w !! cache_key doi = None ->
  remote (queries_made w) doi = Raises e ->
  is_Exception e = true ->
  let w' := log (Query doi (Raises e)) w in
  get_openalex_citation_years remote doi w = (Ret [], w')
  /\ api_cache w' = api_cache w
  /\ cache_file (snd (flush w')) = Some (Json (api_cache w))
  /\ forall remote' w_next,
       api_cache w_next !! cache_key doi = None ->
       trace (snd (get_openalex_citation_years remote' doi w_next))
       = trace w_next ++ [Query doi (remote' (queries_made w_next) doi)].
Proof.
  intros Hd Hc Hr He. simpl. repeat split.
  - rewrite get_openalex_citation_years_eq, Hd, Hc. simpl.
    rewrite Hr, He. reflexivity.
  - intros remote' w_next Hn.
    rewrite get_openalex_citation_years_eq, Hd, Hn. simpl.
    destruct (remote' (queries_made w_next) doi) as [works|e'];
      [|destruct (is_Exception e')]; reflexivity.
Qed.

(** C3. What is put in the dict under a key and flushed is what a run
    that loads the flushed file finds under that key. *)
Theorem cache_round_trip (k : str) (v : list Z) (w w_next : world) :
  cache_file w_next = cache_file (snd (bind (cache_put k v) (fun _ => flush) w)) ->
  exists cache,
    load_api_cache w_next = (Ret cache, w_next) /\ cache !! k = Some v.
Proof.
  intros Hf. exists (loaded w_next). split.
  - unfold load_api_cache, bind, gets. rewrite Hf. reflexivity.
  - unfold loaded. rewrite Hf. simpl. apply lookup_insert_eq.
Qed.

(** C2. The enrichment phase, however it ends, writes the cache file
    exactly once, as the last thing it does; the file then holds the dict,
    with the result of every answered lookup, and the next run sends no
    lookup for an identifier answered in this one. *)
Theorem flush_exactly_once (a : args) (ix : index) (w : world) :
  let w' := snd (enrichment_phase remote a ix w) in
  exists tr,
    trace w' = trace w ++ tr ++ [Flush]
    /\ ~ In Flush tr
    /\ cache_file w' = Some (Json (api_cache w'))
    /\ api_cache w ⊆ api_cache w'
    /\ forall doi works,
         In (Query doi (Cites works)) tr ->
         api_cache w' !! cache_key doi = Some (publication_years works)
         /\ forall remote' a' w_next,
              cache_file w_next = cache_file w' ->
              exists tr',
                trace (snd (process_papers remote' a' w_next))
                = trace w_next ++ tr'
                /\ forall answer, ~ In (Query doi answer) tr'.
Proof.
  destruct (enrichment_phase remote a ix w) as [r w'] eqn:E. simpl.
  apply enrichment_phase_inv in E as (w1 & tr & [T C F N Q A] & _ & ->).
  simpl. exists tr. rewrite T, <- app_assoc.
  split; [reflexivity|]. split; [exact N|]. split; [reflexivity|].
  split; [exact C|].
  intros doi works Hq. split; [apply A; exact Hq|].
  intros remote' a' w_next Hf.
  destruct (process_papers_run remote' a' w_next) as (tr' & T' & Q' & _).
  exists tr'. split; [exact T'|].
  intros answer Hin. apply Q' in Hin.
  unfold loaded in Hin. rewrite Hf in Hin. simpl in Hin.
  rewrite (A _ _ Hq) in Hin. discriminate.
Qed.

End Cache.

Lemma cached_key_never_queried_witness :
  get_openalex_citation_years Examples.always_2019 (lit "10.1/a") Examples.warm
  = (Ret [], Examples.warm).
Proof.
  refine (proj1 (@cached_key_never_queried Ascii7.text Examples.always_2019 (lit "10.1/a")
                   Examples.warm [] _ _)); vm_compute; reflexivity.
Defined.

Lemma remote_failure_not_cached_witness :
  get_openalex_citation_years Examples.down (lit "10.1/b") Examples.warm
  = (Ret [], log (Query (lit "10.1/b") (Raises ApiError)) Examples.warm).
Proof.
  refine (proj1 (remote_failure_not_cached Examples.down (lit "10.1/b")
                   Examples.warm ApiError _ _ _ _)); vm_compute; reflexivity.
Defined.

Lemma cache_round_trip_witness :
  exists cache,
    load_api_cache
      (start (Some (<[lit "openalex_10.1/a" := [2019; 2021]]> ∅)) None None false)
    = (Ret cache,
       start (Some (<[lit "openalex_10.1/a" := [2019; 2021]]> ∅)) None None false)
    /\ cache !! lit "openalex_10.1/a" = Some [2019; 2021].
Proof.
  apply (cache_round_trip (lit "openalex_10.1/a") [2019; 2021] Examples.blank).
  vm_compute. reflexivity.
Defined.

(** ** The resolver *)

Lemma py_max_spec (xs : list Z) (x : Z) :
  In (py_max x xs) (x :: xs) /\ Forall (fun y => y <= py_max x xs) (x :: xs).
Proof.
  unfold py_max. revert x. induction xs as [|y xs IH]; intros x; simpl.
  - split; [tauto|]. repeat constructor. lia.
  - destruct (IH (if x <? y then y else x)) as [Hin Hle].
    inversion Hle as [|? ? Hm Hrest]; subst. split.
    + simpl in Hin. destruct (Z.ltb_spec x y); tauto.
    + constructor; [|constructor; [|exact Hrest]];
        destruct (Z.ltb_spec x y); lia.
Qed.

Lemma last_cited_year_resolves (years : list Z) :
  resolves years (last_cited_year years).
Proof.
  destruct years as [|y ys]; simpl; [reflexivity|].
  destruct (py_max_spec ys y) as [Hin Hle]. eauto.
Qed.

Section Resolver.
Context `{PyText}.
Variable remote : nat -> str -> reply.

Lemma process_row_inv a ix di ti row w out w' :
  process_row remote a ix di ti row w = (Ret out, w') ->
  exists d t openalex_years,
    nth_error row di = Some d /\ nth_error row ti = Some t
    /\ (if no_openalex a then ret []
        else get_openalex_citation_years remote (strip d)) w
       = (Ret openalex_years, w')
    /\ out = row ++ [last_cited_year
                       ((if no_dblp a then []
                         else dblp_years ix (strip d) (strip t))
                        ++ openalex_years)].
Proof.
  unfold process_row, item, citation_years_of. intros Hrun.
  destruct (nth_error row di) as [d|]; [|discriminate].
  destruct (nth_error row ti) as [t|]; [|discriminate].
  exists d, t.
  apply bind_inv in Hrun as [(d' & w1 & [= <- <-] & Hrun)|(e & [=] & _)].
  apply bind_inv in Hrun as [(t' & w1 & [= <- <-] & Hrun)|(e & [=] & _)].
  apply bind_inv in Hrun as [(all & w1 & Hall & [= <- <-])|(e & _ & [=])].
  apply bind_inv in Hall as [(ys & w2 & Hq & [= <- <-])|(e & _ & [=])].
  eauto.
Qed.

(** C1. The field a row receives is the answer of the resolver on the
    DBLP years of the paper followed by its OpenAlex years: the decimal
    form of their greatest year, or [NOT_CITED] when there is none. *)
Theorem resolver_takes_latest_year a ix di ti row w out w' :
  process_row remote a ix di ti row w = (Ret out, w') ->
  exists d t openalex_years answer,
    nth_error row di = Some d /\ nth_error row ti = Some t
    /\ (if no_openalex a then ret []
        else get_openalex_citation_years remote (strip d)) w
       = (Ret openalex_years, w')
    /\ out = row ++ [answer]
    /\ resolves ((if no_dblp a then []
                  else dblp_years ix (strip d) (strip t)) ++ openalex_years)
                answer.
Proof.
  intros Hrun.
  apply process_row_inv in Hrun as (d & t & ys & Hd & Ht & Ho & ->).
  exists d, t, ys. eexists. repeat split; try eassumption.
  apply last_cited_year_resolves.
Qed.

Lemma process_rows_shape a ix di ti rows : forall w outs w',
  process_rows remote a ix di ti rows w = (Ret outs, w') ->
  Forall2 (fun row out => exists field, out = row ++ [field]) rows outs
  /\ output_file w' = output_file w /\ input_file w' = input_file w.
Proof.
  induction rows as [|row rows IH]; intros w outs w' Hrun; simpl in Hrun.
  - inversion Hrun; subst. repeat constructor.
  - apply bind_inv in Hrun as [(out & w1 & H1 & H2)|(e & _ & [=])].
    apply bind_inv in H2 as [(outs' & w2 & H2 & H3)|(e & _ & [=])].
    inversion H3; subst.
    destruct (IH _ _ _ H2) as (HF & Ho & Hi).
    pose proof H1 as Hrow.
    apply process_row_inv in H1 as (d & t & ys & _ & _ & Hq & ->).
    assert (Hsame : output_file w1 = output_file w /\ input_file w1 = input_file w).
    { destruct (no_openalex a); [inversion Hq; subst; auto|].
      rewrite get_openalex_citation_years_eq in Hq.
      destruct (negb (truthy (strip d))); [inversion Hq; subst; auto|].
      destruct (api_cache w !! _); [inversion Hq; subst; auto|].
      simpl in Hq. destruct (remote _ _) as [works|e]; [|destruct (is_Exception e)];
        inversion Hq; subst; auto. }
    destruct Hsame. repeat split; [|congruence|congruence].
    constructor; [eauto|exact HF].
Qed.

End Resolver.

Lemma resolver_takes_latest_year_witness :
  let ix := index_records Examples.small_corpus in
  let a := Examples.flags false false in
  let w' := snd (process_row Examples.always_2020 a ix 0 1 Examples.cited_row
                   Examples.blank) in
  exists d t openalex_years answer,
    nth_error Examples.cited_row 0 = Some d
    /\ nth_error Examples.cited_row 1 = Some t
    /\ (if no_openalex a then ret []
        else get_openalex_citation_years Examples.always_2020 (strip d))
         Examples.blank
       = (Ret openalex_years, w')
    /\ Examples.cited_row ++ [lit "2020"] = Examples.cited_row ++ [answer]
    /\ resolves ((if no_dblp a then []
                  else dblp_years ix (strip d) (strip t)) ++ openalex_years)
                answer.
Proof.
  apply (@resolver_takes_latest_year Ascii7.text Examples.always_2020).
  vm_compute. reflexivity.
Defined.

(** The example of the specification: DBLP years 2015 and 2018, an
    OpenAlex year 2020, answer 2020; no year at all, answer [NOT_CITED]. *)
Example latest_of_both_sources :
  dblp_years (index_records Examples.small_corpus) (lit "10.1/p") [] = [2015; 2018]
  /\ last_cited_year ([2015; 2018] ++ [2020]) = lit "2020"
  /\ last_cited_year ([] ++ []) = lit "NOT_CITED".
Proof. vm_compute. repeat split. Qed.

(** ** The output table *)

Section Output.
Context `{PyText}.
Variable remote : nat -> str -> reply.

Lemma enrich_shape a ix w w' header rows :
  input_file w = Some (Rows (header :: rows)) ->
  enrich remote a ix w = (Ret tt, w') ->
  exists output_rows,
    output_file w' = Some ((header ++ [lit "last_cited_year"]) :: output_rows)
    /\ Forall2 (fun row out => exists field, out = row ++ [field])
               rows output_rows.
Proof.
  intros Hin Hrun. unfold enrich in Hrun.
  apply bind_inv in Hrun as [(input & w1 & Hread & Hrun)|(e & _ & [=])].
  unfold read_input, bind, gets in Hread. rewrite Hin in Hread.
  inversion Hread; subst; clear Hread. simpl in Hrun.
  apply bind_inv in Hrun as [(di & w2 & Hdi & Hrun)|(e & _ & [=])].
  apply bind_inv in Hrun as [(ti & w3 & Hti & Hrun)|(e & _ & [=])].
  apply bind_inv in Hrun as [(outs & w4 & Hrows & Hrun)|(e & _ & [=])].
  inversion Hrun; subst; clear Hrun. simpl.
  apply process_rows_shape in Hrows as (HF & _ & _). eauto.
Qed.

(** C8. When a run ends normally, the output table is the input table,
    row by row and in the same order, each row followed by one more
    field and the header by [last_cited_year]: as many rows, and in each
    row one more column. *)
Theorem output_table_shape (a : args) (w w' : world) (input : list (list str)) :
  input_file w = Some (Rows input) ->
  process_papers remote a w = (Ret tt, w') ->
  exists header rows output_rows,
    input = header :: rows
    /\ output_file w'
       = Some ((header ++ [lit "last_cited_year"]) :: output_rows)
    /\ Forall2 (fun row out => exists field, out = row ++ [field])
               rows output_rows
    /\ length output_rows = length rows
    /\ Forall2 (fun row out => length out = S (length row)
                               /\ firstn (length row) out = row)
               input ((header ++ [lit "last_cited_year"]) :: output_rows).
Proof.
  intros Hin Hrun.
  apply process_papers_inv in Hrun
    as [(_ & [=] & _)|[(_ & _ & _ & _ & [=] & _)|(_ & a' & ix & Hrun)]].
  apply enrichment_phase_inv in Hrun as (w1 & tr & _ & Htry & ->).
  unfold try_except in Htry.
  destruct (enrich remote a' ix _) as [[[]|e] w2] eqn:E.
  2:{ destruct (handled e); inversion Htry. }
  inversion Htry; subst; clear Htry.
  destruct input as [|header rows].
  { unfold enrich, read_input, bind, gets in E. simpl in E.
    rewrite Hin in E. discriminate. }
  apply (enrich_shape _ _ _ _ header rows) in E as (outs & Ho & HF);
    [|exact Hin].
  exists header, rows, outs. simpl.
  assert (Hcols : forall (row out : list str),
             (exists field, out = row ++ [field]) ->
             length out = S (length row) /\ firstn (length row) out = row).
  { intros row out [field ->]. rewrite length_app. simpl. split; [lia|].
    rewrite firstn_app, Nat.sub_diag, firstn_all. simpl. apply app_nil_r. }
  repeat split; try assumption.
  - symmetry. eapply Forall2_length. exact HF.
  - constructor; [apply Hcols; eauto|].
    eapply Forall2_impl; [exact HF|]. intros; apply Hcols; assumption.
Qed.

End Output.

Lemma output_table_shape_witness :
  let w := start None (Some Examples.two_rows) None false in
  let w' := snd (process_papers Examples.first_only
                   (Examples.flags true false) w) in
  exists header rows output_rows,
    Examples.two_rows = header :: rows
    /\ output_file w'
       = Some ((header ++ [lit "last_cited_year"]) :: output_rows)
    /\ Forall2 (fun row out => exists field, out = row ++ [field])
               rows output_rows
    /\ length output_rows = length rows
    /\ Forall2 (fun row out => length out = S (length row)
                               /\ firstn (length row) out = row)
               Examples.two_rows
               ((header ++ [lit "last_cited_year"]) :: output_rows).
Proof.
  intros w w'.
  apply (@output_table_shape Ascii7.text Examples.first_only
           (Examples.flags true false) w w' Examples.two_rows);
    vm_compute; reflexivity.
Defined.

(** The end-to-end example of the specification: DBLP disabled, the first
    identifier answered with 2019, the second lookup failing. *)
Example end_to_end :
  let w := start None (Some Examples.two_rows) None false in
  let run := process_papers Examples.first_only (Examples.flags true false) w in
  fst run = Ret tt
  /\ output_file (snd run)
     = Some [ [lit "DOI"; lit "title"; lit "venue"; lit "last_cited_year"];
              [lit "10.1/a"; lit "First"; lit "X"; lit "2019"];
              [lit "10.1/b"; lit "Second"; lit "Y"; lit "NOT_CITED"] ]
  /\ loaded (snd run) !! cache_key (lit "10.1/a") = Some [2019]
  /\ loaded (snd run) !! cache_key (lit "10.1/b") = None.
Proof. vm_compute. repeat split. Qed.

(** A row too short for the title column ends the run with [IndexError]
    after the first row was answered: nothing is written but the cache
    file, which has the answer. *)
Example short_row_still_flushes :
  let w := start None (Some Examples.short_row) None false in
  let run := process_papers Examples.always_2019 (Examples.flags true false) w in
  fst run = Raise IndexError
  /\ output_file (snd run) = None
  /\ trace (snd run)
     = [Query (lit "10.1/a") (Cites [Some 2019]); Flush]
  /\ loaded (snd run) !! cache_key (lit "10.1/a") = Some [2019].
Proof. vm_compute. repeat split. Qed.

(** A malformed corpus ends the run before the enrichment phase, with
    the parse error of the loop over the elements: the cache file is not
    written. *)
Example malformed_corpus_stops_before :
  let w := start None (Some Examples.two_rows) (Some Malformed) true in
  let run := process_papers Examples.always_2019 (Examples.flags false false) w in
  fst run = Raise XMLSyntaxError /\ trace (snd run) = []
  /\ cache_file (snd run) = None.
Proof. vm_compute. repeat split. Qed.

(** ** Splitting at the DOI marker *)

Lemma is_prefix_app (p s : str) :
  is_prefix p s = true -> exists rest, s = p ++ rest.
Proof.
  revert s. induction p as [|a p IH]; intros s Hp; simpl in *.
  - exists s. reflexivity.
  - destruct s as [|b s]; [discriminate|].
    apply andb_prop in Hp as [Hab Hp]. apply N.eqb_eq in Hab as ->.
    destruct (IH _ Hp) as [rest ->]. exists rest. reflexivity.
Qed.

Lemma split_go_skip (sep u : str) : forall cur s,
  split_go sep (length u) cur (u ++ s) = split_go sep 0 cur s.
Proof. induction u as [|c u IH]; intros cur s; simpl; [reflexivity|apply IH]. Qed.

Lemma split_go_nonempty (sep s : str) : forall skip cur,
  split_go sep skip cur s <> [].
Proof.
  induction s as [|c s IH]; intros skip cur; simpl; [discriminate|].
  destruct skip; [|apply IH].
  destruct (is_prefix sep (c :: s)); [discriminate|apply IH].
Qed.

Lemma last_piece_cons (x : str) (l : list str) :
  l <> [] -> last_piece (x :: l) = last_piece l.
Proof. destruct l; [congruence|reflexivity]. Qed.

(** The last piece is what follows the last separator, or the whole text
    when there is none. *)
Lemma split_go_last (sep : str) : sep <> [] -> forall n s cur,
  (length s <= n)%nat ->
  if contains sep s
  then exists pre, s = pre ++ sep ++ last_piece (split_go sep 0 cur s)
  else last_piece (split_go sep 0 cur s) = rev cur ++ s.
Proof.
  intros Hsep. induction n as [|n IH]; intros s cur Hlen.
  - destruct s; [|simpl in Hlen; lia].
    destruct sep; [congruence|]. simpl. symmetry. apply app_nil_r.
  - destruct s as [|c s].
    { destruct sep; [congruence|]. simpl. symmetry. apply app_nil_r. }
    simpl in Hlen.
    change (contains sep (c :: s))
      with (is_prefix sep (c :: s) || contains sep s).
    change (split_go sep 0 cur (c :: s))
      with (if is_prefix sep (c :: s)
            then rev cur :: split_go sep (length sep - 1) [] s
            else split_go sep 0 (c :: cur) s).
    destruct (is_prefix sep (c :: s)) eqn:Hp; simpl orb.
    + destruct (is_prefix_app _ _ Hp) as [rest Hrest].
      destruct sep as [|c0 sep']; [congruence|].
      injection Hrest as -> ->.
      replace (length (c0 :: sep') - 1)%nat with (length sep') by (simpl; lia).
      rewrite split_go_skip, last_piece_cons by apply split_go_nonempty.
      assert (Hr : (length rest <= n)%nat).
      { rewrite length_app in Hlen. lia. }
      specialize (IH rest [] Hr).
      destruct (contains (c0 :: sep') rest).
      * destruct IH as [pre Hpre]. exists ((c0 :: sep') ++ pre).
        rewrite <- app_assoc. simpl. do 2 f_equal. exact Hpre.
      * exists []. simpl in *. rewrite IH. reflexivity.
    + assert (Hr : (length s <= n)%nat) by lia.
      specialize (IH s (c :: cur) Hr).
      destruct (contains sep s).
      * destruct IH as [pre Hpre]. exists (c :: pre). simpl. f_equal. exact Hpre.
      * rewrite IH. simpl. rewrite <- app_assoc. reflexivity.
Qed.

Lemma split_after_marker (sep text : str) :
  sep <> [] -> contains sep text = true ->
  exists pre, text = pre ++ sep ++ last_piece (split sep text).
Proof.
  intros Hsep Hc.
  pose proof (split_go_last sep Hsep (length text) text [] (le_n _)) as Hl.
  rewrite Hc in Hl. exact Hl.
Qed.

(** ** The DBLP index *)

Section Index.
Context `{PyText}.

Lemma first_doi_found (ee : list (option str)) (doi : str) :
  first_doi ee = Some doi ->
  exists skipped text rest pre,
    ee = skipped ++ Some text :: rest
    /\ Forall (fun e => forall tx, e = Some tx -> contains doi_marker tx = false)
              skipped
    /\ text = pre ++ doi_marker ++ doi.
Proof.
  induction ee as [|[text|] ee IH]; simpl; intros Hf; [discriminate| |].
  - destruct (truthy text && contains doi_marker text) eqn:E.
    + apply andb_prop in E as [_ Hc]. injection Hf as <-.
      destruct (split_after_marker doi_marker text) as [pre Hpre];
        [discriminate|exact Hc|].
      exists [], text, ee, pre. repeat split; [constructor|exact Hpre].
    + destruct (IH Hf) as (skipped & tx & rest & pre & -> & HF & Htx).
      exists (Some text :: skipped), tx, rest, pre.
      repeat split; [|exact Htx].
      constructor; [|exact HF]. intros tx' [= <-].
      destruct text; [reflexivity|exact E].
  - destruct (IH Hf) as (skipped & tx & rest & pre & -> & HF & Htx).
    exists (None :: skipped), tx, rest, pre.
    repeat split; [|exact Htx]. constructor; [discriminate|exact HF].
Qed.

(** What a record does to the title map. *)
Lemma index_record_title (ix : index) (r : record) (n : str) :
  title_to_key_map (index_record ix r) !! n = title_to_key_map ix !! n
  \/ exists k, key r = Some k /\ normalize_title (title r) = n
               /\ title_to_key_map (index_record ix r) !! n = Some k.
Proof.
  unfold index_record. destruct (key r) as [k|]; [|auto].
  destruct (truthy k); [|auto]. simpl. unfold index_title.
  destruct (title r) as [text|]; [|auto].
  destruct (truthy text) eqn:Ht; [|auto].
  destruct (truthy (normalize_title (Some text))) eqn:Hn; [|auto].
  destruct (decide (normalize_title (Some text) = n)) as [<-|Hne].
  - right. exists k. rewrite lookup_insert_eq. auto.
  - left. apply lookup_insert_ne. exact Hne.
Qed.

(** Later records leave an entry of the title map alone or replace it by
    their own key. *)
Lemma index_later_title (later : list record) (n : str) : forall ix k0,
  title_to_key_map ix !! n = Some k0 ->
  exists k', title_to_key_map (fold_left index_record later ix) !! n = Some k'
    /\ (k' = k0
        \/ exists r', In r' later /\ key r' = Some k'
                      /\ normalize_title (title r') = n).
Proof.
  induction later as [|r later IH]; intros ix k0 Hk; simpl.
  - eauto.
  - destruct (index_record_title ix r n) as [Hsame|(k & Hkey & Hn & Hnew)].
    + rewrite <- Hsame in Hk.
      destruct (IH _ _ Hk) as (k' & Hk' & [->|(r' & Hin & Hr')]); eauto 8.
    + destruct (IH _ _ Hnew) as (k' & Hk' & [->|(r' & Hin & Hr')]); eauto 8.
Qed.

Lemma iterparse_app (before after : list record) :
  iterparse (before ++ after) = iterparse before ++ iterparse after.
Proof. apply List.filter_app. Qed.

Lemma iterparse_In (r : record) (elems : list record) :
  In r (iterparse elems) -> In r elems /\ tag r ∈ PUBLICATION_TAGS.
Proof.
  unfold iterparse. rewrite List.filter_In. intros [Hin Ht].
  apply bool_decide_eq_true in Ht. auto.
Qed.

(** C9, as amended.  A record of a publication tag with a key and a title
    whose normal form is not empty is found under that normal form after
    indexing, unless a later record with the same normal form took its
    place; a record adds to the identifier map the one entry of its first
    [ee] field that contains the marker, under what follows the marker,
    and nothing when no field contains it. *)
Theorem index_resolves_title_and_doi
    (before after : list record) (r : record) (k t : str) :
  tag r ∈ PUBLICATION_TAGS ->
  key r = Some k -> truthy k = true ->
  title r = Some t -> truthy (normalize_title (Some t)) = true ->
  (exists k',
      title_to_key_map (index_records (before ++ r :: after))
        !! normalize_title (Some t) = Some k'
      /\ (k' = k
          \/ exists r', In r' after /\ tag r' ∈ PUBLICATION_TAGS
                        /\ key r' = Some k'
                        /\ normalize_title (title r')
                           = normalize_title (Some t)))
  /\ (forall ix,
        doi_to_key_map (index_record ix r)
        = match first_doi (ees r) with
          | Some doi => <[doi := k]> (doi_to_key_map ix)
          | None => doi_to_key_map ix
          end)
  /\ (forall doi,
        first_doi (ees r) = Some doi ->
        exists skipped text rest pre,
          ees r = skipped ++ Some text :: rest
          /\ Forall (fun e => forall tx, e = Some tx ->
                                         contains doi_marker tx = false)
                    skipped
          /\ text = pre ++ doi_marker ++ doi).
Proof.
  intros Htag Hkey Hk Htitle Hn. split; [|split].
  - unfold index_records.
    rewrite iterparse_app, fold_left_app. simpl.
    rewrite bool_decide_eq_true_2 by exact Htag. simpl.
    set (ix := fold_left index_record (iterparse before) empty_index).
    assert (Hhere : title_to_key_map (index_record ix r)
                      !! normalize_title (Some t) = Some k).
    { unfold index_record, index_title. rewrite Hkey, Hk, Htitle. simpl.
      destruct (truthy t) eqn:Ht.
      - simpl in Hn. rewrite Ht in Hn. rewrite Hn. apply lookup_insert_eq.
      - simpl in Hn. rewrite Ht in Hn. discriminate. }
    destruct (index_later_title (iterparse after) _ _ _ Hhere)
      as (k' & Hk' & [->|(r' & Hin & Hr1 & Hr2)]).
    + eauto.
    + apply iterparse_In in Hin as [Hin Ht']. exists k'. split; [exact Hk'|].
      right. exists r'. auto.
  - intros ix. unfold index_record, index_ee. rewrite Hkey, Hk. reflexivity.
  - intros doi. apply first_doi_found.
Qed.

(** The title map never has the empty string as a key. *)
Lemma index_records_no_empty_title (elems : list record) :
  title_to_key_map (index_records elems) !! [] = None.
Proof.
  unfold index_records.
  assert (Hgen : forall l ix, title_to_key_map ix !! [] = None ->
                 title_to_key_map (fold_left index_record l ix) !! [] = None).
  { induction l as [|r l IH]; intros ix Hix; simpl; [exact Hix|].
    apply IH. unfold index_record.
    destruct (key r) as [k|]; [|exact Hix].
    destruct (truthy k); [|exact Hix]. simpl. unfold index_title.
    destruct (title r) as [text|]; [|exact Hix].
    destruct (truthy text); [|exact Hix].
    destruct (normalize_title (Some text)) eqn:En; simpl; [exact Hix|].
    rewrite lookup_insert_ne by discriminate. exact Hix. }
  apply Hgen. reflexivity.
Qed.

(** A paper without identifier and title has no DBLP years as long as the
    identifier map has no entry under the empty string. *)
Lemma dblp_years_empty_paper (elems : list record) :
  doi_to_key_map (index_records elems) !! [] = None ->
  dblp_years (index_records elems) [] [] = [].
Proof.
  intros Hd. unfold dblp_years. rewrite Hd. simpl.
  rewrite index_records_no_empty_title. reflexivity.
Qed.

End Index.

Lemma index_resolves_title_and_doi_witness :
  exists k',
    title_to_key_map (index_records Examples.small_corpus)
      !! lit "acitedpaper" = Some k'
    /\ (k' = lit "conf/x/P"
        \/ exists r',
             In r' [Examples.citer "journals/y/Q" "2015";
                    Examples.citer "journals/y/R" "2018"]
             /\ tag r' ∈ PUBLICATION_TAGS
             /\ key r' = Some k'
             /\ normalize_title (title r') = lit "acitedpaper").
Proof.
  refine (proj1 (@index_resolves_title_and_doi Ascii7.text []
                   [Examples.citer "journals/y/Q" "2015";
                    Examples.citer "journals/y/R" "2018"]
                   Examples.cited_paper (lit "conf/x/P")
                   (lit "A Cited Paper") _ _ _ _ _));
    try (vm_compute; reflexivity).
  apply (bool_decide_unpack _). vm_compute. exact I.
Defined.

(** C9, as stated, fails: a record with a key and the non-empty title [?!]
    is not found under the normal form of its title, which is empty. *)
Lemma punctuation_title_not_indexed :
  let r := Examples.punctuation_title in
  tag r ∈ PUBLICATION_TAGS
  /\ key r = Some (lit "conf/x/C")
  /\ title r = Some (lit "?!") /\ lit "?!" <> []
  /\ ~ exists k',
         title_to_key_map (index_records [r]) !! normalize_title (title r)
         = Some k'.
Proof.
  simpl. split; [|split; [reflexivity|split; [reflexivity|split]]].
  - apply (bool_decide_unpack _). vm_compute. exact I.
  - discriminate.
  - intros [k' Hk']. vm_compute in Hk'. discriminate.
Qed.

(** C7 on the code: a record whose [ee] field is the bare resolver
    address is indexed under the empty identifier, so a row with an empty
    identifier and an empty title is looked up under the empty key, finds
    that record and receives the years of its citations. *)
Theorem empty_paper_gets_corpus_evidence :
  let ix := index_records [Examples.bare_ee; Examples.citing] in
  doi_to_key_map ix !! [] = Some (lit "conf/x/A")
  /\ dblp_years ix (strip []) (strip []) = [2020]
  /\ process_row Examples.down (Examples.flags false false) ix 0 1
       [[]; []] Examples.blank
     = (Ret [[]; []; lit "2020"], Examples.blank).
Proof. vm_compute. repeat split. Qed.

(** ** The citing years of the index *)

Section Citations.
Context `{PyText}.

(** The function folded over the [cite] children, lines 143-145. *)
Lemma fold_cites_lookup (y : Z) (cited : str) (cs : list (option str)) :
  truthy cited = true -> cited <> lit "..." ->
  forall acc : gmap str (list Z),
  default []
    (fold_left
       (fun acc citation =>
          match citation with
          | Some c =>
              if truthy c && negb (bool_decide (c = lit "..."))
              then append_year c y acc else acc
          | None => acc
          end) cs acc !! cited)
  = default [] (acc !! cited)
    ++ flat_map (fun c => if decide (c = Some cited) then [y] else []) cs.
Proof.
  intros Ht Hp. induction cs as [|[c|] cs IH]; intros acc; simpl.
  - rewrite app_nil_r. reflexivity.
  - rewrite IH. destruct (decide (Some c = Some cited)) as [[= ->]|Hne].
    + rewrite Ht, bool_decide_eq_false_2 by exact Hp. simpl.
      unfold append_year. rewrite lookup_insert_eq. simpl.
      rewrite <- app_assoc. reflexivity.
    + simpl. f_equal.
      destruct (truthy c && negb (bool_decide (c = lit "..."))); [|reflexivity].
      unfold append_year. rewrite lookup_insert_ne by congruence. reflexivity.
  - rewrite IH. destruct (decide (None = Some cited)); [discriminate|reflexivity].
Qed.

Lemma index_record_citations (ix : index) (r : record) (cited : str) :
  truthy cited = true -> cited <> lit "..." ->
  default [] (citations_map (index_record ix r) !! cited)
  = default [] (citations_map ix !! cited) ++ contribution r cited.
Proof.
  intros Ht Hp. unfold index_record, contribution, citing_year, index_cites.
  destruct (key r) as [k|]; [|rewrite app_nil_r; reflexivity].
  destruct (truthy k); simpl.
  - destruct (year r) as [text|]; [|rewrite app_nil_r; reflexivity].
    destruct (truthy text); [|rewrite app_nil_r; reflexivity].
    destruct (int_of_str text) as [y|]; [|rewrite app_nil_r; reflexivity].
    apply fold_cites_lookup; assumption.
  - destruct (year r); rewrite app_nil_r; reflexivity.
Qed.

(** X1. Under every key the index holds the years of the records that cite
    it, one for each [cite] child, in the order of the document. *)
Theorem citations_in_document_order (elems : list record) (cited : str) :
  truthy cited = true -> cited <> lit "..." ->
  default [] (citations_map (index_records elems) !! cited)
  = flat_map (fun r => contribution r cited) (iterparse elems).
Proof.
  intros Ht Hp. unfold index_records.
  assert (Hgen : forall l ix,
            default [] (citations_map (fold_left index_record l ix) !! cited)
            = default [] (citations_map ix !! cited)
              ++ flat_map (fun r => contribution r cited) l).
  { induction l as [|r l IH]; intros ix; simpl.
    - rewrite app_nil_r. reflexivity.
    - rewrite IH, index_record_citations, <- app_assoc by assumption.
      reflexivity. }
  rewrite Hgen. reflexivity.
Qed.

Lemma append_year_wf (c : str) (y : Z) (m : gmap str (list Z)) :
  truthy c = true -> c <> lit "..." ->
  citations_wf m -> citations_wf (append_year c y m).
Proof.
  intros Ht Hp Hm k ys. unfold append_year.
  rewrite lookup_insert. destruct (decide (c = k)) as [<-|Hne].
  - intros [= <-]. repeat split; try assumption.
    destruct (default [] (m !! c)); discriminate.
  - apply Hm.
Qed.

Lemma index_record_wf (ix : index) (r : record) :
  citations_wf (citations_map ix) ->
  citations_wf (citations_map (index_record ix r)).
Proof.
  intros Hm. unfold index_record.
  destruct (key r) as [k|]; [|exact Hm].
  destruct (truthy k); [|exact Hm]. simpl. unfold index_cites.
  destruct (year r) as [text|]; [|exact Hm].
  destruct (truthy text); [|exact Hm].
  destruct (int_of_str text) as [y|]; [|exact Hm].
  generalize dependent (citations_map ix).
  induction (cites r) as [|[c|] cs IH]; intros m Hm; simpl; auto.
  apply IH.
  destruct (truthy c) eqn:Hc; simpl; [|exact Hm].
  destruct (bool_decide (c = lit "...")) eqn:Hd; simpl; [exact Hm|].
  apply append_year_wf; auto.
  apply bool_decide_eq_false in Hd. exact Hd.
Qed.

(** X2. No entry of the citations map is empty, and neither the empty string
    nor the placeholder [...] is ever a key of it. *)
Theorem citations_never_empty (elems : list record) (k : str) (ys : list Z) :
  citations_map (index_records elems) !! k = Some ys ->
  ys <> [] /\ truthy k = true /\ k <> lit "...".
Proof.
  unfold index_records.
  assert (Hgen : forall l ix, citations_wf (citations_map ix) ->
                 citations_wf (citations_map (fold_left index_record l ix))).
  { induction l as [|r l IH]; intros ix Hix; simpl; [exact Hix|].
    apply IH, index_record_wf, Hix. }
  apply Hgen. intros k' ys' Hk. simpl in Hk.
  rewrite lookup_empty in Hk. discriminate.
Qed.

End Citations.

(** ** The identifier map and the soundness of the index *)

Section IndexEntries.
Context `{PyText}.

Lemma index_record_doi (ix : index) (r : record) (d : str) :
  doi_to_key_map (index_record ix r) !! d = doi_to_key_map ix !! d
  \/ exists k, key r = Some k /\ truthy k = true
               /\ first_doi (ees r) = Some d
               /\ doi_to_key_map (index_record ix r) !! d = Some k.
Proof.
  unfold index_record. destruct (key r) as [k|]; [|auto].
  destruct (truthy k) eqn:Hk; [|auto]. simpl. unfold index_ee.
  destruct (first_doi (ees r)) as [d'|]; [|auto].
  destruct (decide (d' = d)) as [->|Hne].
  - right. exists k. rewrite lookup_insert_eq. auto.
  - left. apply lookup_insert_ne. exact Hne.
Qed.

Lemma index_later_doi (later : list record) (d : str) : forall ix k0,
  doi_to_key_map ix !! d = Some k0 ->
  exists k', doi_to_key_map (fold_left index_record later ix) !! d = Some k'
    /\ (k' = k0
        \/ exists r', In r' later /\ key r' = Some k'
                      /\ first_doi (ees r') = Some d).
Proof.
  induction later as [|r later IH]; intros ix k0 Hk; simpl.
  - eauto.
  - destruct (index_record_doi ix r d) as [Hsame|(k & Hkey & _ & Hd & Hnew)].
    + rewrite <- Hsame in Hk.
      destruct (IH _ _ Hk) as (k' & Hk' & [->|(r' & Hin & Hr')]); eauto 8.
    + destruct (IH _ _ Hnew) as (k' & Hk' & [->|(r' & Hin & Hr')]); eauto 8.
Qed.

(** X3. The identifier of a record resolves, after indexing, to the key of
    that record or of a later record with the same identifier. *)
Theorem identifier_last_writer_wins
    (before after : list record) (r : record) (k d : str) :
  tag r ∈ PUBLICATION_TAGS ->
  key r = Some k -> truthy k = true ->
  first_doi (ees r) = Some d ->
  exists k',
    doi_to_key_map (index_records (before ++ r :: after)) !! d = Some k'
    /\ (k' = k
        \/ exists r', In r' after /\ tag r' ∈ PUBLICATION_TAGS
                      /\ key r' = Some k'
                      /\ first_doi (ees r') = Some d).
Proof.
  intros Htag Hkey Hk Hd. unfold index_records.
  rewrite iterparse_app, fold_left_app. simpl.
  rewrite bool_decide_eq_true_2 by exact Htag. simpl.
  set (ix := fold_left index_record (iterparse before) empty_index).
  assert (Hhere : doi_to_key_map (index_record ix r) !! d = Some k).
  { unfold index_record, index_ee. rewrite Hkey, Hk, Hd. simpl.
    apply lookup_insert_eq. }
  destruct (index_later_doi (iterparse after) _ _ _ Hhere)
    as (k' & Hk' & [->|(r' & Hin & Hr1 & Hr2)]).
  - eauto.
  - apply iterparse_In in Hin as [Hin Ht']. exists k'. split; [exact Hk'|].
    right. exists r'. auto.
Qed.

Lemma index_record_title_from (ix : index) (r : record) (n : str) :
  title_to_key_map (index_record ix r) !! n = title_to_key_map ix !! n
  \/ exists k, key r = Some k /\ truthy k = true /\ truthy n = true
               /\ normalize_title (title r) = n
               /\ title_to_key_map (index_record ix r) !! n = Some k.
Proof.
  unfold index_record. destruct (key r) as [k|]; [|auto].
  destruct (truthy k) eqn:Hk; [|auto]. simpl. unfold index_title.
  destruct (title r) as [text|]; [|auto].
  destruct (truthy text) eqn:Ht; [|auto].
  destruct (truthy (normalize_title (Some text))) eqn:Hn; [|auto].
  destruct (decide (normalize_title (Some text) = n)) as [<-|Hne].
  - right. exists k. rewrite lookup_insert_eq. auto.
  - left. apply lookup_insert_ne. exact Hne.
Qed.

Lemma index_entries_from (elems : list record) (n k : str) :
  (title_to_key_map (index_records elems) !! n = Some k ->
   exists r, In r elems /\ tag r ∈ PUBLICATION_TAGS
             /\ key r = Some k /\ truthy k = true
             /\ truthy n = true /\ normalize_title (title r) = n)
  /\ (doi_to_key_map (index_records elems) !! n = Some k ->
      exists r, In r elems /\ tag r ∈ PUBLICATION_TAGS
                /\ key r = Some k /\ truthy k = true
                /\ first_doi (ees r) = Some n).
Proof.
  unfold index_records.
  assert (Hgen : forall l ix,
    (title_to_key_map (fold_left index_record l ix) !! n = Some k ->
     title_to_key_map ix !! n = Some k
     \/ exists r, In r l /\ key r = Some k /\ truthy k = true
                  /\ truthy n = true /\ normalize_title (title r) = n)
    /\ (doi_to_key_map (fold_left index_record l ix) !! n = Some k ->
        doi_to_key_map ix !! n = Some k
        \/ exists r, In r l /\ key r = Some k /\ truthy k = true
                     /\ first_doi (ees r) = Some n)).
  { induction l as [|r l IH]; intros ix; simpl; [auto|].
    destruct (IH (index_record ix r)) as [IHt IHd]. split; intros Hl.
    - destruct (IHt Hl) as [Hhere|(r' & Hin & Hr')]; [|right; eauto 8].
      destruct (index_record_title_from ix r n)
        as [Hsame|(k' & Hkey & Hk & Hn & Hnorm & Hnew)].
      + left. congruence.
      + right. exists r. rewrite Hnew in Hhere. injection Hhere as <-. auto 8.
    - destruct (IHd Hl) as [Hhere|(r' & Hin & Hr')]; [|right; eauto 8].
      destruct (index_record_doi ix r n)
        as [Hsame|(k' & Hkey & Hk & Hd & Hnew)].
      + left. congruence.
      + right. exists r. rewrite Hnew in Hhere. injection Hhere as <-. auto 8. }
  destruct (Hgen (iterparse elems) empty_index) as [Ht Hd].
  split; intros Hl.
  - destruct (Ht Hl) as [He|(r & Hin & Hr)].
    + simpl in He. rewrite lookup_empty in He. discriminate.
    + apply iterparse_In in Hin as [Hin Htag]. exists r. tauto.
  - destruct (Hd Hl) as [He|(r & Hin & Hr)].
    + simpl in He. rewrite lookup_empty in He. discriminate.
    + apply iterparse_In in Hin as [Hin Htag]. exists r. tauto.
Qed.

(** X4. Every entry of the two key maps comes from a record of the document
    of a publication tag: its value is the non-empty key of a record
    whose normalised title, or whose identifier, is the entry's key. *)
Theorem index_entries_come_from_records (elems : list record) (n k : str) :
  (title_to_key_map (index_records elems) !! n = Some k ->
   exists r, In r elems /\ tag r ∈ PUBLICATION_TAGS
             /\ key r = Some k /\ truthy k = true
             /\ truthy n = true /\ normalize_title (title r) = n)
  /\ (doi_to_key_map (index_records elems) !! n = Some k ->
      exists r, In r elems /\ tag r ∈ PUBLICATION_TAGS
                /\ key r = Some k /\ truthy k = true
                /\ first_doi (ees r) = Some n).
Proof. apply index_entries_from. Qed.

(** X5. An element without a key, with an empty key or of another tag leaves
    no mark on the index. *)
Theorem skipped_element_leaves_no_mark
    (before after : list record) (r : record) :
  tag r ∉ PUBLICATION_TAGS \/ key r = None \/ key r = Some [] ->
  index_records (before ++ r :: after) = index_records (before ++ after).
Proof.
  intros Hskip. unfold index_records.
  rewrite !iterparse_app, !fold_left_app. simpl.
  destruct (bool_decide (tag r ∈ PUBLICATION_TAGS)) eqn:Htag; [|reflexivity].
  simpl. f_equal. unfold index_record.
  destruct Hskip as [Hno|[->| ->]]; [|reflexivity|reflexivity].
  apply bool_decide_eq_true in Htag. contradiction.
Qed.

Lemma dblp_years_on_index (elems : list record) (paper_doi paper_title : str) :
  let ix := index_records elems in
  dblp_years ix paper_doi paper_title
  = match doi_to_key_map ix !! paper_doi with
    | Some k => default [] (citations_map ix !! k)
    | None =>
        match title_to_key_map ix !! normalize_title (Some paper_title) with
        | Some k => default [] (citations_map ix !! k)
        | None => []
        end
    end.
Proof.
  cbv zeta. unfold dblp_years, py_or.
  destruct (doi_to_key_map (index_records elems) !! paper_doi) as [k|] eqn:Hd.
  - destruct (proj2 (index_entries_from elems paper_doi k) Hd)
      as (r & _ & _ & _ & Hk & _).
    rewrite Hk, Hk. reflexivity.
  - destruct (title_to_key_map (index_records elems)
                !! normalize_title (Some paper_title)) as [k|] eqn:Ht;
      [|reflexivity].
    destruct (proj1 (index_entries_from elems _ k) Ht)
      as (r & _ & _ & _ & Hk & _).
    rewrite Hk. reflexivity.
Qed.

(** X6. On the index of a document the resolver takes the key under the
    identifier of the paper, whatever its title, and the key under the
    normalised title only when the identifier has none; the DBLP years
    are the citing years of that key. *)
Theorem identifier_before_title (elems : list record) (paper_doi paper_title : str) :
  let ix := index_records elems in
  dblp_years ix paper_doi paper_title
  = match doi_to_key_map ix !! paper_doi with
    | Some k => default [] (citations_map ix !! k)
    | None =>
        match title_to_key_map ix !! normalize_title (Some paper_title) with
        | Some k => default [] (citations_map ix !! k)
        | None => []
        end
    end.
Proof. apply dblp_years_on_index. Qed.

(** X7. A paper whose identifier the index does not know, and whose title has
    the non-empty normal form of the title of a record, gets the citing
    years of that record, or of a later record with the same normalised
    title. *)
Theorem title_fallback_finds_record
    (before after : list record) (r : record) (k paper_doi paper_title : str) :
  tag r ∈ PUBLICATION_TAGS ->
  key r = Some k -> truthy k = true ->
  normalize_title (title r) = normalize_title (Some paper_title) ->
  truthy (normalize_title (Some paper_title)) = true ->
  let ix := index_records (before ++ r :: after) in
  doi_to_key_map ix !! paper_doi = None ->
  exists k',
    dblp_years ix paper_doi paper_title = default [] (citations_map ix !! k')
    /\ (k' = k
        \/ exists r', In r' after /\ tag r' ∈ PUBLICATION_TAGS
                      /\ key r' = Some k'
                      /\ normalize_title (title r')
                         = normalize_title (Some paper_title)).
Proof.
  intros Htag Hkey Hk Hsame Hn ix Hd. subst ix.
  rewrite dblp_years_on_index. cbv zeta. rewrite Hd.
  set (n := normalize_title (Some paper_title)) in *.
  assert (Hfound : exists k',
    title_to_key_map (index_records (before ++ r :: after)) !! n = Some k'
    /\ (k' = k
        \/ exists r', In r' (iterparse after) /\ key r' = Some k'
                      /\ normalize_title (title r') = n)).
  { unfold index_records. rewrite iterparse_app, fold_left_app. simpl.
    rewrite bool_decide_eq_true_2 by exact Htag. simpl.
    apply index_later_title.
    unfold index_record, index_title. rewrite Hkey, Hk.
    cbn [title_to_key_map].
    destruct (title r) as [text|].
    - destruct (truthy text) eqn:Htt.
      + rewrite Hsame, Hn. apply lookup_insert_eq.
      + cbn [normalize_title] in Hsame. rewrite Htt in Hsame.
        rewrite <- Hsame in Hn. discriminate.
    - cbn [normalize_title] in Hsame. rewrite <- Hsame in Hn. discriminate. }
  destruct Hfound as (k' & Hk' & Hor). rewrite Hk'. exists k'.
  split; [reflexivity|].
  destruct Hor as [->|(r' & Hin & Hr1 & Hr2)]; [auto|].
  apply iterparse_In in Hin as [Hin Ht']. right. exists r'. auto.
Qed.

End IndexEntries.

(** ** What the loop over the rows does to the outside *)

Lemma row_step_refl w : row_step w w [].
Proof.
  constructor; simpl; auto;
    first [symmetry; apply app_nil_r | constructor | tauto].
Qed.

Lemma row_step_trans w1 w2 w3 qs1 qs2 :
  row_step w1 w2 qs1 -> row_step w2 w3 qs2 -> row_step w1 w3 (qs1 ++ qs2).
Proof.
  intros [T1 L1 F1 A1] [T2 L2 F2 A2]. constructor.
  - rewrite T2, T1. symmetry. apply app_assoc.
  - apply Forall_app. split; assumption.
  - intuition congruence.
  - intros k v Hk. destruct (A2 _ _ Hk) as [Hk2|(doi & works & Hin & Heq)].
    + destruct (A1 _ _ Hk2) as [Hk1|(doi & works & Hin & Heq)]; [auto|].
      right. exists doi, works. split; [apply in_or_app; auto|exact Heq].
    + right. exists doi, works. split; [apply in_or_app; auto|exact Heq].
Qed.

Lemma escapes_app_l {A} (r : res A) qs1 qs2 :
  escapes r qs2 -> escapes r (qs1 ++ qs2).
Proof.
  destruct r as [a|e]; simpl; [auto|].
  intros [He|[He [doi Hin]]]; [auto|].
  right. split; [exact He|]. exists doi. apply in_or_app. auto.
Qed.

Lemma sends_ret {A} (a : A) : sends (ret a) 0.
Proof.
  intros w r w' [= <- <-]. exists []. split; [apply row_step_refl|].
  simpl. auto.
Qed.

Lemma sends_item {A} (l : list A) i : sends (item l i) 0.
Proof.
  unfold item. destruct (nth_error l i); [apply sends_ret|].
  intros w r w' [= <- <-]. exists []. split; [apply row_step_refl|].
  simpl. auto.
Qed.

Lemma sends_bind {A B} (m : M A) (k : A -> M B) n1 n2 :
  sends m n1 -> (forall a, sends (k a) n2) -> sends (bind m k) (n1 + n2).
Proof.
  intros Hm Hk w r w' Hrun.
  apply bind_inv in Hrun as [(a & w1 & H1 & H2)|(e & H1 & ->)].
  - destruct (Hm _ _ _ H1) as (qs1 & S1 & L1 & _).
    destruct (Hk _ _ _ _ H2) as (qs2 & S2 & L2 & E2).
    exists (qs1 ++ qs2). split; [eapply row_step_trans; eassumption|].
    split; [rewrite length_app; lia|apply escapes_app_l, E2].
  - destruct (Hm _ _ _ H1) as (qs1 & S1 & L1 & E1).
    exists qs1. split; [exact S1|]. split; [lia|exact E1].
Qed.

Lemma index_of_None (x : str) (l : list str) :
  index_of x l = None <-> ~ In x l.
Proof.
  induction l as [|y l IH]; simpl; [tauto|].
  destruct (decide (y = x)) as [->|Hne].
  - split; [discriminate|tauto].
  - destruct (index_of x l); simpl.
    + split; [discriminate|]. intros Hn.
      assert (Hc : @Some nat n = None) by (apply IH; tauto). discriminate.
    + split; [|reflexivity]. intros _ [Heq|Hin]; [congruence|].
      apply IH in Hin; auto.
Qed.

Section Sends.
Context `{PyText}.
Variable remote : nat -> str -> reply.

Lemma sends_get_openalex doi :
  sends (get_openalex_citation_years remote doi) 1.
Proof.
  intros w r w'. rewrite get_openalex_citation_years_eq.
  destruct (truthy doi) eqn:Hd; simpl.
  2:{ intros [= <- <-]. exists []. split; [apply row_step_refl|]. simpl. auto. }
  destruct (api_cache w !! cache_key doi) as [years|] eqn:Hc.
  { intros [= <- <-]. exists []. split; [apply row_step_refl|]. simpl. auto. }
  assert (Hl : forall answer, lookups [Query doi answer]).
  { intros answer. repeat constructor. eauto. }
  destruct (remote (queries_made w) doi) as [works|e] eqn:Hr.
  - intros [= <- <-]. exists [Query doi (Cites works)].
    split; [|simpl; auto]. constructor; simpl; auto.
    intros k v. rewrite lookup_insert.
    destruct (decide (cache_key doi = k)) as [<-|Hne]; [|auto].
    intros [= <-]. right. exists doi, works. auto.
  - destruct (is_Exception e) eqn:He; intros [= <- <-];
      exists [Query doi (Raises e)];
      (split; [constructor; simpl; auto|]); simpl; [auto|].
    split; [lia|]. right. split; [exact He|]. exists doi. auto.
Qed.

Lemma sends_process_row a ix di ti row :
  sends (process_row remote a ix di ti row) 1.
Proof.
  unfold process_row, citation_years_of.
  apply (sends_bind _ _ 0 1); [apply sends_item|intros d].
  apply (sends_bind _ _ 0 1); [apply sends_item|intros t].
  apply (sends_bind _ _ 1 0); [|intros ys; apply sends_ret].
  apply (sends_bind _ _ 1 0); [|intros ys; apply sends_ret].
  destruct (no_openalex a); [|apply sends_get_openalex].
  intros w r w' [= <- <-]. exists []. split; [apply row_step_refl|].
  simpl. auto.
Qed.

Lemma sends_process_rows a ix di ti rows :
  sends (process_rows remote a ix di ti rows) (length rows).
Proof.
  induction rows as [|row rows IH]; simpl process_rows.
  - apply sends_ret.
  - apply (sends_bind _ _ 1 (length rows)); [apply sends_process_row|].
    intros out. replace (length rows) with (length rows + 0)%nat by lia.
    apply sends_bind; [exact IH|intros outs; apply sends_ret].
Qed.

(** The [try] block, case by case. *)
Lemma enrich_eq a ix w :
  enrich remote a ix w =
  match input_file w with
  | None => (Raise FileNotFoundError, w)
  | Some (Unreadable e) => (Raise e, w)
  | Some (Rows []) => (Raise IndexError, w)
  | Some (Rows (header :: rows)) =>
      match index_of (lit "DOI") header, index_of (lit "title") header with
      | Some di, Some ti =>
          match process_rows remote a ix di ti rows w with
          | (Ret output_rows, w1) =>
              (Ret tt,
               log WriteOutput
                 (set_output_file
                    ((header ++ [lit "last_cited_year"]) :: output_rows) w1))
          | (Raise e, w1) => (Raise e, w1)
          end
      | _, _ => (Raise ValueError, w)
      end
  end.
Proof.
  unfold enrich, read_input, py_index.
  unfold bind at 1, bind at 1, gets at 1.
  destruct (input_file w) as [[e|[|header rows]]|]; try reflexivity.
  simpl. unfold bind at 1.
  destruct (index_of (lit "DOI") header) as [di|]; [|reflexivity].
  unfold ret at 1. unfold bind at 1.
  destruct (index_of (lit "title") header) as [ti|]; [|reflexivity].
  unfold ret at 1. unfold bind at 1.
  destruct (process_rows remote a ix di ti rows w) as [[outs|e] w1]; reflexivity.
Qed.

Lemma enrichment_phase_eq a ix w :
  enrichment_phase remote a ix w =
  let run := try_except (enrich remote a ix) handled
                        (fun _ => raise (SystemExit 1)) w in
  (fst run, log Flush (set_cache_file (api_cache (snd run)) (snd run))).
Proof.
  unfold enrichment_phase, try_finally.
  destruct (try_except _ _ _ w) as [r w1]. reflexivity.
Qed.

End Sends.

(** ** How the enrichment phase ends *)

Section Runs.
Context `{PyText}.
Variable remote : nat -> str -> reply.

Lemma escapes_unhandled {A} (e : exn) qs :
  escapes (@Raise A e) qs -> handled e = false.
Proof.
  simpl. intros [->|[He _]]; [reflexivity|].
  destruct e; simpl in *; congruence.
Qed.

(** The phase sends the lookups of the rows, then writes the output and
    the cache file, or stops at an exception and writes the cache file
    only. *)
Lemma enrichment_phase_cases a ix w :
  exists w1 qs,
    row_step w w1 qs
    /\ (length qs <= length (data_rows w))%nat
    /\ ((exists t,
           enrichment_phase remote a ix w
           = (Ret tt,
              log Flush (set_cache_file (api_cache w1)
                           (log WriteOutput (set_output_file t w1)))))
        \/ (exists e,
              enrichment_phase remote a ix w
              = (Raise e, log Flush (set_cache_file (api_cache w1) w1)))).
Proof.
  rewrite enrichment_phase_eq. unfold try_except, data_rows. rewrite enrich_eq.
  destruct (input_file w) as [[e0|[|header rows]]|] eqn:Hin.
  - destruct (handled e0); simpl; exists w, [];
      (split; [apply row_step_refl|]); (split; [simpl; lia|]);
      right; eexists; reflexivity.
  - simpl. exists w, []. split; [apply row_step_refl|].
    split; [simpl; lia|]. right. eexists. reflexivity.
  - destruct (index_of (lit "DOI") header) as [di|].
    2:{ simpl. exists w, []. split; [apply row_step_refl|].
        split; [simpl; lia|]. right. eexists. reflexivity. }
    destruct (index_of (lit "title") header) as [ti|].
    2:{ simpl. exists w, []. split; [apply row_step_refl|].
        split; [simpl; lia|]. right. eexists. reflexivity. }
    destruct (process_rows remote a ix di ti rows w) as [[outs|e] w1] eqn:E;
      apply sends_process_rows in E as (qs & S & L & Esc);
      exists w1, qs; (split; [exact S|]); (split; [exact L|]).
    + left. eexists. reflexivity.
    + right. exists e.
      rewrite (escapes_unhandled (A := list (list str)) e qs Esc).
      reflexivity.
  - simpl. exists w, []. split; [apply row_step_refl|].
    split; [simpl; lia|]. right. eexists. reflexivity.
Qed.

(** X9. The events of the enrichment phase: at most one lookup for each
    data row, each for a non-empty identifier, then the output and the
    cache file on success; when reading the input, finding the columns
    or a row raises, the cache file alone, the output file being left as
    it was. *)
Theorem enrichment_trace_shape a ix w :
  let run := enrichment_phase remote a ix w in
  exists qs,
    lookups qs
    /\ (length qs <= length (data_rows w))%nat
    /\ match fst run with
       | Ret _ => trace (snd run) = trace w ++ qs ++ [WriteOutput; Flush]
       | Raise e =>
           trace (snd run) = trace w ++ qs ++ [Flush]
           /\ output_file (snd run) = output_file w
       end.
Proof.
  cbv zeta.
  destruct (enrichment_phase_cases a ix w)
    as (w1 & qs & [T L F A] & Hlen & [(t & ->)|(e & ->)]);
    exists qs; (split; [exact L|]); (split; [exact Hlen|]); simpl.
  - rewrite T, <- !app_assoc. reflexivity.
  - rewrite T, <- !app_assoc. intuition.
Qed.

(** X10. When the phase ends, the dict and the cache file hold what the dict
    held before and, for every answered lookup, its result under the
    key of its identifier; nothing else. *)
Theorem cache_gains_only_answers a ix w :
  let w' := snd (enrichment_phase remote a ix w) in
  exists tr,
    trace w' = trace w ++ tr
    /\ cache_file w' = Some (Json (api_cache w'))
    /\ forall k v,
         api_cache w' !! k = Some v ->
         api_cache w !! k = Some v
         \/ exists doi works,
              In (Query doi (Cites works)) tr /\ truthy doi = true
              /\ k = cache_key doi /\ v = publication_years works.
Proof.
  cbv zeta.
  destruct (enrichment_phase_cases a ix w)
    as (w1 & qs & [T L F A] & _ & [(t & ->)|(e & ->)]); simpl.
  - exists (qs ++ [WriteOutput; Flush]).
    split; [rewrite T, <- !app_assoc; reflexivity|]. split; [reflexivity|].
    intros k v Hk. destruct (A _ _ Hk) as [Hw|(doi & works & Hin & Hkv)]; [auto|].
    right. exists doi, works. split; [apply in_or_app; auto|].
    split; [|exact Hkv].
    unfold lookups in L. rewrite List.Forall_forall in L.
    destruct (L _ Hin) as (d & ans & [= <- _] & Ht). exact Ht.
  - exists (qs ++ [Flush]).
    split; [rewrite T, <- !app_assoc; reflexivity|]. split; [reflexivity|].
    intros k v Hk. destruct (A _ _ Hk) as [Hw|(doi & works & Hin & Hkv)]; [auto|].
    right. exists doi, works. split; [apply in_or_app; auto|].
    split; [|exact Hkv].
    unfold lookups in L. rewrite List.Forall_forall in L.
    destruct (L _ Hin) as (d & ans & [= <- _] & Ht). exact Ht.
Qed.

(** X11. A header without the [DOI] or the [title] column ends the phase with
    [SystemExit(1)]: no lookup is sent, no output is written, and the
    cache file is written with the dict as it was. *)
Theorem missing_column_exits a ix w header rows :
  input_file w = Some (Rows (header :: rows)) ->
  ~ In (lit "DOI") header \/ ~ In (lit "title") header ->
  enrichment_phase remote a ix w
  = (Raise (SystemExit 1), log Flush (set_cache_file (api_cache w) w)).
Proof.
  intros Hin Hcol. rewrite enrichment_phase_eq. unfold try_except.
  rewrite enrich_eq, Hin.
  destruct Hcol as [Hc|Hc]; apply (proj2 (index_of_None _ _)) in Hc;
    rewrite Hc.
  - reflexivity.
  - destruct (index_of (lit "DOI") header); reflexivity.
Qed.

(** X12. A missing input file ends the phase with [SystemExit(1)], an input
    file without a header row with [IndexError]; either way only the
    cache file is written. *)
Theorem unreadable_input_ends_run a ix w :
  (input_file w = None ->
   enrichment_phase remote a ix w
   = (Raise (SystemExit 1), log Flush (set_cache_file (api_cache w) w)))
  /\ (input_file w = Some (Rows []) ->
      enrichment_phase remote a ix w
      = (Raise IndexError, log Flush (set_cache_file (api_cache w) w))).
Proof.
  split; intros Hin; rewrite enrichment_phase_eq; unfold try_except;
    rewrite enrich_eq, Hin; reflexivity.
Qed.

Lemma process_rows_short a ix di ti rows :
  Exists (fun row : list str =>
            (length row <= di)%nat \/ (length row <= ti)%nat) rows ->
  forall w outs w', process_rows remote a ix di ti rows w <> (Ret outs, w').
Proof.
  induction 1 as [row rows Hshort|row rows _ IH]; intros w outs w' Hrun;
    simpl in Hrun;
    apply bind_inv in Hrun as [(out & w1 & H1 & H2)|(e & _ & [=])].
  - apply process_row_inv in H1 as (d & t & ys & Hd & Ht & _).
    assert (di < length row)%nat by (apply nth_error_Some; congruence).
    assert (ti < length row)%nat by (apply nth_error_Some; congruence).
    lia.
  - apply bind_inv in H2 as [(outs' & w2 & H2 & H3)|(e & _ & [=])].
    eapply IH. exact H2.
Qed.

(** X13. A row too short to have the identifier or the title column makes the
    phase end with an exception; the output file is left as it was. *)
Theorem short_row_writes_no_output a ix w header rows di ti :
  input_file w = Some (Rows (header :: rows)) ->
  index_of (lit "DOI") header = Some di ->
  index_of (lit "title") header = Some ti ->
  Exists (fun row : list str =>
            (length row <= di)%nat \/ (length row <= ti)%nat) rows ->
  exists e,
    fst (enrichment_phase remote a ix w) = Raise e
    /\ output_file (snd (enrichment_phase remote a ix w)) = output_file w.
Proof.
  intros Hin Hdi Hti Hshort.
  pose proof (process_rows_short a ix di ti rows Hshort w) as Hno.
  destruct (enrichment_phase_cases a ix w)
    as (w1 & qs & [T L F A] & _ & [(t & Hrun)|(e & ->)]).
  - exfalso. rewrite enrichment_phase_eq in Hrun. unfold try_except in Hrun.
    rewrite enrich_eq, Hin, Hdi, Hti in Hrun.
    destruct (process_rows remote a ix di ti rows w) as [[outs|e] w2] eqn:E.
    + eapply Hno. reflexivity.
    + destruct (handled e); simpl in Hrun; discriminate.
  - exists e. simpl. intuition.
Qed.

End Runs.

(** ** Rows that send no lookup *)

Section Offline.
Context `{PyText}.
Variable remote : nat -> str -> reply.

Lemma process_row_offline a ix di ti row w :
  no_openalex a = true ->
  snd (process_row remote a ix di ti row w) = w.
Proof.
  intros Hno. unfold process_row, citation_years_of, item. rewrite Hno.
  destruct (nth_error row di); [|reflexivity].
  destruct (nth_error row ti); reflexivity.
Qed.

Lemma process_rows_offline a ix di ti rows :
  no_openalex a = true ->
  forall w, snd (process_rows remote a ix di ti rows w) = w.
Proof.
  intros Hno. induction rows as [|row rows IH]; intros w; [reflexivity|].
  simpl. unfold bind at 1.
  pose proof (process_row_offline a ix di ti row w Hno) as Hrow.
  destruct (process_row remote a ix di ti row w) as [[out|e] w1];
    simpl in Hrow; subst w1; [|reflexivity].
  unfold bind at 1. specialize (IH w).
  destruct (process_rows remote a ix di ti rows w) as [[outs|e] w1];
    simpl in IH; subst w1; reflexivity.
Qed.

(** X14. With [--no-openalex] the phase sends no lookup and leaves the dict as
    it was: it writes the output, if it gets that far, and writes the
    dict it started with to the cache file. *)
Theorem no_openalex_sends_nothing a ix w :
  no_openalex a = true ->
  let w' := snd (enrichment_phase remote a ix w) in
  api_cache w' = api_cache w
  /\ cache_file w' = Some (Json (api_cache w))
  /\ (trace w' = trace w ++ [Flush]
      \/ trace w' = trace w ++ [WriteOutput; Flush]).
Proof.
  intros Hno. cbv zeta. rewrite enrichment_phase_eq. unfold try_except.
  rewrite enrich_eq.
  destruct (input_file w) as [[e0|[|header rows]]|]; simpl; auto.
  { destruct (handled e0); simpl; auto. }
  destruct (index_of (lit "DOI") header) as [di|]; simpl; auto.
  destruct (index_of (lit "title") header) as [ti|]; simpl; auto.
  pose proof (process_rows_offline a ix di ti rows Hno w) as Hrows.
  destruct (process_rows remote a ix di ti rows w) as [[outs|e] w1];
    simpl in Hrows; subst w1; simpl.
  - rewrite <- app_assoc. auto.
  - destruct (handled e); simpl; auto.
Qed.

Lemma lstrip_spaces (d : str) :
  Forall (fun c => isspace c = true) d -> lstrip d = [].
Proof. induction 1 as [|c d Hc _ IH]; simpl; [|rewrite Hc]; auto. Qed.

(** X15. A row whose identifier field is empty or white space sends no lookup
    and makes no entry in the dict: the world is left as it was. *)
Theorem blank_identifier_sends_nothing a ix di ti row d w :
  nth_error row di = Some d ->
  Forall (fun c => isspace c = true) d ->
  snd (process_row remote a ix di ti row w) = w.
Proof.
  intros Hd Hsp. unfold process_row, citation_years_of, item. rewrite Hd.
  assert (Hs : strip d = []).
  { unfold strip, rstrip. rewrite (lstrip_spaces d Hsp). reflexivity. }
  destruct (nth_error row ti); [|reflexivity].
  unfold bind, ret. cbv beta iota. rewrite Hs.
  destruct (no_openalex a); reflexivity.
Qed.

(** X16. When [dblp.xml] or [dblp.dtd] does not exist the run goes on as if
    [--no-dblp] had been given. *)
Theorem missing_corpus_degrades a w :
  dblp_file w = None \/ dtd_present w = false ->
  process_papers remote a w
  = process_papers remote
      {| no_dblp := true; no_openalex := no_openalex a |} w.
Proof.
  intros Hmiss. rewrite !process_papers_eq.
  destruct a as [nd no]. simpl.
  destruct (cache_file w) as [[|c]|]; [reflexivity| |];
    (destruct nd; [reflexivity|];
     destruct Hmiss as [-> | ->]; [reflexivity|];
     destruct (dblp_file w) as [[|elems]|]; reflexivity).
Qed.

End Offline.

(** ** The appended field *)

Lemma int_of_field_lit (s : string) :
  int_of_field (lit s) = option_map Z.of_int (NilZero.int_of_string s).
Proof.
  unfold int_of_field, lit. rewrite List.map_map.
  rewrite (List.map_ext _ (fun a => a)) by apply ascii_N_embedding.
  rewrite List.map_id, string_of_list_ascii_of_string. reflexivity.
Qed.

(** The field written for a year reads back as that year. *)
Lemma int_of_field_str_of_int (n : Z) : int_of_field (str_of_int n) = Some n.
Proof.
  unfold str_of_int. rewrite int_of_field_lit, NilZero.isi.
  - simpl. f_equal. apply DecimalZ.of_to.
  - destruct n; simpl; try discriminate.
    intros [= Hp]. exact (DecimalPos.Unsigned.to_uint_nonnil _ Hp).
  - destruct n; simpl; try discriminate.
    intros [= Hp]. exact (DecimalPos.Unsigned.to_uint_nonnil _ Hp).
Qed.

(** X19. The field is [NOT_CITED] exactly when there is no citing year;
    otherwise it reads back, as a decimal number, as a year of the
    evidence that no other year exceeds. *)
Theorem field_determines_answer (years : list Z) :
  (last_cited_year years = lit "NOT_CITED" <-> years = [])
  /\ (years <> [] ->
      exists m, In m years /\ Forall (fun x => x <= m) years
                /\ int_of_field (last_cited_year years) = Some m).
Proof.
  destruct years as [|y ys]; simpl.
  - split; [tauto|congruence].
  - destruct (py_max_spec ys y) as [Hin Hle]. split.
    + split; [|discriminate]. intros Heq.
      pose proof (int_of_field_str_of_int (py_max y ys)) as Hr.
      rewrite Heq in Hr. vm_compute in Hr. discriminate.
    + intros _. exists (py_max y ys).
      split; [exact Hin|]. split; [exact Hle|apply int_of_field_str_of_int].
Qed.

(** X20. The field depends only on which years occur in the evidence, not on
    their order or on how often each occurs. *)
Theorem field_ignores_order_and_duplicates (years1 years2 : list Z) :
  (forall y, In y years1 <-> In y years2) ->
  last_cited_year years1 = last_cited_year years2.
Proof.
  intros Hsame.
  destruct years1 as [|y1 ys1], years2 as [|y2 ys2]; simpl.
  - reflexivity.
  - destruct (proj2 (Hsame y2)). left. reflexivity.
  - destruct (proj1 (Hsame y1)). left. reflexivity.
  - f_equal.
    destruct (py_max_spec ys1 y1) as [Hin1 Hle1].
    destruct (py_max_spec ys2 y2) as [Hin2 Hle2].
    rewrite List.Forall_forall in Hle1, Hle2.
    apply Hsame in Hin1. apply Hsame in Hin2.
    apply Hle2 in Hin1. apply Hle1 in Hin2. lia.
Qed.

(** ** An answered lookup *)

Lemma publication_years_In (works : list (option Z)) (y : Z) :
  In y (publication_years works) <-> In (Some y) works /\ y <> 0.
Proof.
  unfold publication_years. induction works as [|[n|] works IH]; simpl.
  - tauto.
  - destruct (Z.eqb_spec n 0) as [->|Hn]; simpl; rewrite IH.
    + split; [tauto|]. intros [[[= <-]|Hin] Hy]; [congruence|tauto].
    + split.
      * intros [<-|[Hin Hy]]; auto.
      * intros [[[= <-]|Hin] Hy]; auto.
  - rewrite IH. split; [tauto|]. intros [[[=]|Hin] Hy]. tauto.
Qed.

(** X21. A lookup of an identifier the dict does not know, answered by the
    service, returns the years of the citing works that have one, zero
    left out, and stores that list in the dict, also when it is empty. *)
Theorem answered_lookup_is_cached
    (remote : nat -> str -> reply) (doi : str) (w : world)
    (works : list (option Z)) :
  truthy doi = true ->
  api_cache w !! cache_key doi = None ->
  remote (queries_made w) doi = Cites works ->
  exists years w',
    get_openalex_citation_years remote doi w = (Ret years, w')
    /\ api_cache w' = <[cache_key doi := years]> (api_cache w)
    /\ trace w' = trace w ++ [Query doi (Cites works)]
    /\ (forall y, In y years <-> In (Some y) works /\ y <> 0)
    /\ (Forall (fun y => y = None \/ y = Some 0) works -> years = []).
Proof.
  intros Hd Hc Hr. rewrite get_openalex_citation_years_eq, Hd, Hc. simpl.
  rewrite Hr. eexists _, _. split; [reflexivity|]. simpl.
  split; [reflexivity|]. split; [reflexivity|].
  split; [apply publication_years_In|].
  intros Hall. destruct (publication_years works) as [|y ys] eqn:E;
    [reflexivity|].
  assert (Hin : In y (publication_years works)) by (rewrite E; left; reflexivity).
  apply publication_years_In in Hin as [Hin Hy].
  rewrite List.Forall_forall in Hall.
  destruct (Hall _ Hin) as [[=]|[= ->]]. congruence.
Qed.

(** ** Reading an identifier out of a link *)

Lemma is_prefix_app_same (sep rest : str) : is_prefix sep (sep ++ rest) = true.
Proof. induction sep as [|c sep IH]; simpl; [|rewrite N.eqb_refl]; auto. Qed.

Lemma contains_unfold (sub s : str) :
  contains sub s
  = (is_prefix sub s
     || match s with [] => false | _ :: s' => contains sub s' end).
Proof. destruct s; reflexivity. Qed.

Lemma contains_app (sep pre rest : str) :
  contains sep (pre ++ sep ++ rest) = true.
Proof.
  induction pre as [|c pre IH]; simpl app.
  - rewrite contains_unfold, is_prefix_app_same. reflexivity.
  - change (contains sep (c :: pre ++ sep ++ rest))
      with (is_prefix sep (c :: pre ++ sep ++ rest)
            || contains sep (pre ++ sep ++ rest)).
    rewrite IH. apply orb_true_r.
Qed.

Lemma split_go_prefix (sep tail : str) : forall pre cur,
  starts_nowhere sep pre tail = true ->
  split_go sep 0 cur (pre ++ tail) = split_go sep 0 (rev pre ++ cur) tail.
Proof.
  induction pre as [|c pre IH]; intros cur Hs; [reflexivity|].
  simpl in Hs. apply andb_prop in Hs as [Hhere Hrest].
  apply negb_true_iff in Hhere.
  simpl app.
  change (split_go sep 0 cur (c :: pre ++ tail))
    with (if is_prefix sep (c :: pre ++ tail)
          then rev cur :: split_go sep (length sep - 1) [] (pre ++ tail)
          else split_go sep 0 (c :: cur) (pre ++ tail)).
  rewrite Hhere, IH by exact Hrest. simpl. rewrite <- app_assoc. reflexivity.
Qed.

Lemma split_go_at_sep (sep cur rest : str) :
  sep <> [] ->
  split_go sep 0 cur (sep ++ rest) = rev cur :: split_go sep 0 [] rest.
Proof.
  intros Hsep. destruct sep as [|c sep']; [congruence|].
  change (split_go (c :: sep') 0 cur ((c :: sep') ++ rest))
    with (if is_prefix (c :: sep') ((c :: sep') ++ rest)
          then rev cur :: split_go (c :: sep') (length (c :: sep') - 1) []
                            (sep' ++ rest)
          else split_go (c :: sep') 0 (c :: cur) (sep' ++ rest)).
  rewrite is_prefix_app_same.
  replace (length (c :: sep') - 1)%nat with (length sep') by (simpl; lia).
  rewrite split_go_skip. reflexivity.
Qed.

(** Splitting a text in which the separator occurs once, at a known
    place, leaves what follows it as the last piece. *)
Lemma last_piece_after (sep pre rest : str) :
  sep <> [] ->
  starts_nowhere sep pre (sep ++ rest) = true ->
  contains sep rest = false ->
  last_piece (split sep (pre ++ sep ++ rest)) = rest.
Proof.
  intros Hsep Hpre Hrest. unfold split.
  rewrite split_go_prefix by exact Hpre.
  rewrite split_go_at_sep by exact Hsep.
  rewrite last_piece_cons by apply split_go_nonempty.
  pose proof (split_go_last sep Hsep (length rest) rest [] (le_n _)) as Hl.
  rewrite Hrest in Hl. exact Hl.
Qed.

Lemma first_doi_skip (skipped rest : list (option str)) :
  Forall (fun e => forall tx, e = Some tx -> contains doi_marker tx = false)
         skipped ->
  first_doi (skipped ++ rest) = first_doi rest.
Proof.
  induction 1 as [|[tx|] skipped Hno _ IH]; simpl; [reflexivity| |exact IH].
  rewrite (Hno tx eq_refl), andb_false_r. exact IH.
Qed.

(** X8. The identifier of a record is read from its first [ee] field that
    contains the marker: when the marker starts nowhere before its
    occurrence in that field and does not occur after it, the identifier
    is exactly what follows the marker. *)
Theorem doi_read_from_link
    (skipped rest : list (option str)) (pre doi : str) :
  Forall (fun e => forall tx, e = Some tx -> contains doi_marker tx = false)
         skipped ->
  starts_nowhere doi_marker pre (doi_marker ++ doi) = true ->
  contains doi_marker doi = false ->
  first_doi (skipped ++ Some (pre ++ doi_marker ++ doi) :: rest) = Some doi.
Proof.
  intros Hskip Hpre Hdoi. rewrite first_doi_skip by exact Hskip.
  cbn [first_doi]. rewrite contains_app.
  assert (Ht : truthy (pre ++ doi_marker ++ doi) = true).
  { destruct pre; reflexivity. }
  rewrite Ht. cbn [andb]. f_equal.
  apply last_piece_after; [discriminate|exact Hpre|exact Hdoi].
Qed.

(** ** Runs that stop before the enrichment phase *)

(** X17. A corpus that does not parse ends the run with the
    [XMLSyntaxError] of the loop over the elements, which nothing
    catches, before the [try] block: no lookup is sent, and neither the
    output nor the cache file is written. *)
Theorem malformed_corpus_raises_unflushed
    `{PyText} (remote : nat -> str -> reply) (a : args) (w : world) :
  cache_file w <> Some Garbled ->
  no_dblp a = false ->
  dblp_file w = Some Malformed ->
  dtd_present w = true ->
  process_papers remote a w
  = (Raise XMLSyntaxError, set_api_cache (loaded w) w).
Proof.
  intros Hc Hd Hf Hp. rewrite process_papers_eq, Hd, Hf, Hp.
  destruct (cache_file w) as [[|c]|]; [congruence|reflexivity|reflexivity].
Qed.

(** X22. A cache file that is not a JSON document ends the run with the
    error of [json.load], before anything else is done: the world is
    left as it was, so the file is not rewritten. *)
Theorem garbled_cache_stops_run
    `{PyText} (remote : nat -> str -> reply) (a : args) (w : world) :
  cache_file w = Some Garbled ->
  process_papers remote a w = (Raise JSONDecodeError, w).
Proof. intros Hc. rewrite process_papers_eq, Hc. reflexivity. Qed.

(** X23. What [open] or [csv.reader] raises on the input file ends the
    enrichment phase: as [SystemExit(1)] when it is a [ValueError], such
    as a decoding error, and as itself otherwise; only the cache file is
    written, with the dict as it was. *)
Theorem unreadable_input_propagates
    `{PyText} (remote : nat -> str -> reply) (a : args) (ix : index)
    (w : world) (e : exn) :
  input_file w = Some (Unreadable e) ->
  enrichment_phase remote a ix w
  = (Raise (if handled e then SystemExit 1 else e),
     log Flush (set_cache_file (api_cache w) w)).
Proof.
  intros Hin. rewrite enrichment_phase_eq. unfold try_except.
  rewrite enrich_eq, Hin. destruct (handled e); reflexivity.
Qed.

(** ** The further properties on the worked inputs *)

Lemma tag_article : lit "article" ∈ PUBLICATION_TAGS.
Proof. apply (bool_decide_unpack _). vm_compute. exact I. Qed.

Lemma tag_inproceedings : lit "inproceedings" ∈ PUBLICATION_TAGS.
Proof. apply (bool_decide_unpack _). vm_compute. exact I. Qed.

Lemma citations_in_document_order_witness :
  default [] (citations_map (index_records Examples.small_corpus)
                !! lit "conf/x/P")
  = flat_map (fun r => contribution r (lit "conf/x/P"))
             (iterparse Examples.small_corpus).
Proof.
  apply (@citations_in_document_order Ascii7.text);
    [reflexivity|vm_compute; discriminate].
Defined.

Lemma citations_never_empty_witness :
  [2015; 2018] <> [] /\ truthy (lit "conf/x/P") = true
  /\ lit "conf/x/P" <> lit "...".
Proof.
  apply (@citations_never_empty Ascii7.text Examples.small_corpus).
  vm_compute. reflexivity.
Defined.

Lemma identifier_last_writer_wins_witness :
  exists k',
    doi_to_key_map (index_records Examples.small_corpus) !! lit "10.1/p"
    = Some k'
    /\ (k' = lit "conf/x/P"
        \/ exists r',
             In r' [Examples.citer "journals/y/Q" "2015";
                    Examples.citer "journals/y/R" "2018"]
             /\ tag r' ∈ PUBLICATION_TAGS /\ key r' = Some k'
             /\ first_doi (ees r') = Some (lit "10.1/p")).
Proof.
  apply (@identifier_last_writer_wins Ascii7.text [] _ Examples.cited_paper);
    [exact tag_inproceedings|reflexivity|reflexivity|vm_compute; reflexivity].
Defined.

Lemma index_entries_come_from_records_witness :
  exists r, In r Examples.small_corpus /\ tag r ∈ PUBLICATION_TAGS
            /\ key r = Some (lit "conf/x/P")
            /\ truthy (lit "conf/x/P") = true
            /\ first_doi (ees r) = Some (lit "10.1/p").
Proof.
  apply (proj2 (@index_entries_come_from_records Ascii7.text
                  Examples.small_corpus (lit "10.1/p") (lit "conf/x/P"))).
  vm_compute. reflexivity.
Defined.

Lemma skipped_element_leaves_no_mark_witness :
  index_records ([Examples.cited_paper] ++ MoreExamples.keyless
                   :: [Examples.citer "journals/y/Q" "2015"])
  = index_records ([Examples.cited_paper]
                     ++ [Examples.citer "journals/y/Q" "2015"]).
Proof.
  apply (@skipped_element_leaves_no_mark Ascii7.text).
  right. left. reflexivity.
Defined.

Lemma title_fallback_finds_record_witness :
  let ix := index_records Examples.small_corpus in
  exists k',
    dblp_years ix (lit "10.9/unknown") (lit "a cited paper!")
    = default [] (citations_map ix !! k')
    /\ (k' = lit "conf/x/P"
        \/ exists r',
             In r' [Examples.citer "journals/y/Q" "2015";
                    Examples.citer "journals/y/R" "2018"]
             /\ tag r' ∈ PUBLICATION_TAGS /\ key r' = Some k'
             /\ normalize_title (title r')
                = normalize_title (Some (lit "a cited paper!"))).
Proof.
  apply (@title_fallback_finds_record Ascii7.text [] _ Examples.cited_paper);
    [exact tag_inproceedings|reflexivity|reflexivity| | |];
    vm_compute; reflexivity.
Defined.

Lemma missing_column_exits_witness :
  let w := MoreExamples.reads MoreExamples.no_doi_column in
  enrichment_phase Examples.always_2019 (Examples.flags true false)
    empty_index w
  = (Raise (SystemExit 1), log Flush (set_cache_file (api_cache w) w)).
Proof.
  intros w.
  apply (@missing_column_exits Ascii7.text Examples.always_2019 _ _ w
           [lit "title"; lit "venue"] [[lit "First"; lit "X"]]);
    [reflexivity|].
  left. vm_compute. intros [Heq|[Heq|[]]]; discriminate.
Defined.

Lemma unreadable_input_ends_run_witness :
  enrichment_phase Examples.always_2019 (Examples.flags true false)
    empty_index Examples.blank
  = (Raise (SystemExit 1),
     log Flush (set_cache_file (api_cache Examples.blank) Examples.blank)).
Proof.
  apply (proj1 (@unreadable_input_ends_run Ascii7.text Examples.always_2019
                  (Examples.flags true false) empty_index Examples.blank)).
  reflexivity.
Defined.

Lemma short_row_writes_no_output_witness :
  let w := MoreExamples.reads Examples.short_row in
  let run := enrichment_phase Examples.always_2019
               (Examples.flags true false) empty_index w in
  exists e, fst run = Raise e /\ output_file (snd run) = output_file w.
Proof.
  intros w run.
  apply (@short_row_writes_no_output Ascii7.text Examples.always_2019
           (Examples.flags true false) empty_index w
           [lit "DOI"; lit "title"]
           [[lit "10.1/a"; lit "First"]; [lit "10.1/b"]] 0 1);
    try reflexivity.
  apply Exists_cons_tl, Exists_cons_hd. right. simpl. lia.
Defined.

Lemma no_openalex_sends_nothing_witness :
  let w := MoreExamples.reads Examples.two_rows in
  let w' := snd (enrichment_phase Examples.always_2019
                   (Examples.flags true true) empty_index w) in
  api_cache w' = api_cache w
  /\ cache_file w' = Some (Json (api_cache w))
  /\ (trace w' = trace w ++ [Flush]
      \/ trace w' = trace w ++ [WriteOutput; Flush]).
Proof.
  intros w.
  apply (@no_openalex_sends_nothing Ascii7.text Examples.always_2019
           (Examples.flags true true) empty_index w).
  reflexivity.
Defined.

Lemma blank_identifier_sends_nothing_witness :
  snd (process_row Examples.always_2019 (Examples.flags true false)
         empty_index 0 1 MoreExamples.blank_doi_row Examples.blank)
  = Examples.blank.
Proof.
  apply (@blank_identifier_sends_nothing Ascii7.text Examples.always_2019
           (Examples.flags true false) empty_index 0 1
           MoreExamples.blank_doi_row (lit "  ") Examples.blank);
    [reflexivity|].
  repeat constructor.
Defined.

Lemma missing_corpus_degrades_witness :
  let w := MoreExamples.reads Examples.two_rows in
  process_papers Examples.always_2019 (Examples.flags false false) w
  = process_papers Examples.always_2019
      {| no_dblp := true;
         no_openalex := no_openalex (Examples.flags false false) |} w.
Proof.
  intros w.
  apply (@missing_corpus_degrades Ascii7.text Examples.always_2019).
  left. reflexivity.
Defined.

Lemma field_determines_answer_witness :
  exists m, In m [2015; 2020; 2018]
            /\ Forall (fun x => x <= m) [2015; 2020; 2018]
            /\ int_of_field (last_cited_year [2015; 2020; 2018]) = Some m.
Proof.
  apply (proj2 (field_determines_answer [2015; 2020; 2018])). discriminate.
Defined.

Lemma field_ignores_order_and_duplicates_witness :
  last_cited_year [2015; 2020; 2015] = last_cited_year [2020; 2015].
Proof.
  apply field_ignores_order_and_duplicates.
  intros y. simpl. tauto.
Defined.

Lemma answered_lookup_is_cached_witness :
  exists years w',
    get_openalex_citation_years Examples.always_2020 (lit "10.1/b")
      Examples.warm = (Ret years, w')
    /\ api_cache w'
       = <[cache_key (lit "10.1/b") := years]> (api_cache Examples.warm)
    /\ trace w' = trace Examples.warm
                  ++ [Query (lit "10.1/b") (Cites [Some 2020; None])]
    /\ (forall y, In y years <-> In (Some y) [Some 2020; None] /\ y <> 0)
    /\ (Forall (fun y => y = None \/ y = Some 0) [Some 2020; None]
        -> years = []).
Proof.
  apply (answered_lookup_is_cached Examples.always_2020 (lit "10.1/b")
           Examples.warm [Some 2020; None]);
    vm_compute; reflexivity.
Defined.

Lemma doi_read_from_link_witness :
  first_doi MoreExamples.links = Some (lit "10.1/p").
Proof.
  apply (doi_read_from_link
           [None; Some (lit "https://example.org/paper.pdf")]
           [Some (lit "https://doi.org/10.1/q")]
           (lit "https://") (lit "10.1/p"));
    [|vm_compute; reflexivity|vm_compute; reflexivity].
  repeat constructor; intros tx [= <-]. vm_compute. reflexivity.
Defined.

Lemma malformed_corpus_raises_unflushed_witness :
  let w := start None (Some Examples.two_rows) (Some Malformed) true in
  process_papers Examples.always_2019 (Examples.flags false false) w
  = (Raise XMLSyntaxError, set_api_cache (loaded w) w).
Proof.
  intros w.
  apply (@malformed_corpus_raises_unflushed Ascii7.text Examples.always_2019);
    [discriminate|reflexivity|reflexivity|reflexivity].
Defined.

Lemma garbled_cache_stops_run_witness :
  process_papers Examples.always_2019 (Examples.flags true false)
    MoreExamples.garbled
  = (Raise JSONDecodeError, MoreExamples.garbled).
Proof.
  apply (@garbled_cache_stops_run Ascii7.text Examples.always_2019).
  reflexivity.
Defined.

Lemma unreadable_input_propagates_witness :
  enrichment_phase Examples.always_2019 (Examples.flags true false)
    empty_index (MoreExamples.unreadable OSError)
  = (Raise OSError,
     log Flush (set_cache_file (api_cache (MoreExamples.unreadable OSError))
                  (MoreExamples.unreadable OSError))).
Proof.
  apply (@unreadable_input_propagates Ascii7.text Examples.always_2019
           (Examples.flags true false) empty_index
           (MoreExamples.unreadable OSError) OSError).
  reflexivity.
Defined.

Lemma process_papers_flushes_once_witness :
  let w := MoreExamples.reads Examples.short_row in
  exists tr,
    trace (snd (process_papers Examples.always_2019
                  (Examples.flags true false) w))
    = trace w ++ tr ++ [Flush]
    /\ ~ In Flush tr.
Proof.
  intros w.
  apply (@process_papers_flushes_once Ascii7.text Examples.always_2019);
    [discriminate|left; reflexivity].
Defined.
